(** * kai-client: the SSE streaming core (src/kai_client/sse.py)

    A shallow embedding of the dialect normalizer ([parse_sse_event] and the
    per-type parsers), the SSE line reader ([parse_sse_stream]), the stream
    accumulator ([SSEStreamParser]) and the tool-call tracker of
    examples/test_tool_confirmation.py ([stream_and_collect]), followed by
    the properties the specification states about them.

    Conventions.
    - A Python value that came out of [json.loads] is a [json]; a [dict] is a
      [gmap string json] (keys of a decoded JSON object are strings).
    - A Python [str] is a Rocq [string]; characters are code points below 256.
    - A call that may raise returns a [result]; a generator is the list of the
      values it yields together with the way it ends.
    - Mutation of [self] is explicit state passing.
    - The accumulator's dict of tool calls is a [gmap]: it is read by key,
      and for its key set and its size.  Where the order of the keys of a
      dict is observed, the dict is an association list in insertion order
      ([odict_set], [upsert_calls]). *)

From Stdlib Require Import ZArith NArith String Ascii List Bool Lia.
From Stdlib Require Import Floats.SpecFloat.
From stdpp Require Import gmap strings list fin_maps pretty.

Set Warnings "-register-all".
Local Open Scope string_scope.
Local Open Scope list_scope.

(* ===================================================================== *)
(** ** Python values                                                      *)
(* ===================================================================== *)

(** What [json.loads] returns: None, bool, int, float, str, list, dict. *)
Inductive json : Type :=
  | JNull
  | JBool (b : bool)
  | JInt (z : Z)
  | JFloat (f : spec_float)
  | JStr (s : string)
  | JList (l : list json)
  | JDict (d : gmap string json).

(** Python's truth value of an object ([if x:]). *)
Definition truthy (v : json) : bool :=
  match v with
  | JNull => false
  | JBool b => b
  | JInt z => negb (z =? 0)%Z
  | JFloat (S754_zero _) => false
  | JFloat _ => true
  | JStr s => negb (String.eqb s "")
  | JList l => match l with [] => false | _ :: _ => true end
  | JDict d => negb (bool_decide (d = ∅))
  end.

(** [isinstance(v, dict)]. *)
Definition is_dict (v : json) : bool :=
  match v with JDict _ => true | _ => false end.

(** [type(v).__name__], as it appears in Python's error messages. *)
Definition type_name (v : json) : string :=
  match v with
  | JNull => "NoneType"
  | JBool _ => "bool"
  | JInt _ => "int"
  | JFloat _ => "float"
  | JStr _ => "str"
  | JList _ => "list"
  | JDict _ => "dict"
  end.

(** [d.get(key, default)] and [d.get(key)] on a dict. *)
Definition dict_get (d : gmap string json) (key : string) (dflt : json) : json :=
  default dflt (d !! key).

Definition dict_get_none (d : gmap string json) (key : string) : json :=
  dict_get d key JNull.

(** [key in d]. *)
Definition dict_contains (d : gmap string json) (key : string) : bool :=
  bool_decide (is_Some (d !! key)).

(* ===================================================================== *)
(** ** Exceptions and fallible calls                                      *)
(* ===================================================================== *)

(** [json.JSONDecodeError(msg, doc, pos)]. *)
Record JSONDecodeError : Type := mkJSONDecodeError {
  jde_msg : string;
  jde_doc : string;
  jde_pos : nat
}.

(** The exceptions that travel through this module.  [KaiStreamError] is
    raised with [raise ... from e]: the exception it was raised from is kept
    as [__cause__]. *)
Inductive exn : Type :=
  | ExJSONDecodeError (e : JSONDecodeError)
  | ExAttributeError (msg : string)
  | ExTypeError (msg : string)
  | ExKeyError (key : string)
  | ExValidationError (model field : string)
  | ExStreamClosed
  | ExRemoteProtocolError (msg : string)
  | ExOther (cls msg : string)
  | ExKaiStreamError (message cause : string) (from_ : exn).

(** The class of an exception. *)
Inductive exn_class : Type :=
  | JSONDecodeErrorT | AttributeErrorT | TypeErrorT | KeyErrorT | ValidationErrorT
  | StreamClosedT | RemoteProtocolErrorT | OtherT (cls : string)
  | KaiStreamErrorT.

Definition class_of (e : exn) : exn_class :=
  match e with
  | ExJSONDecodeError _ => JSONDecodeErrorT
  | ExAttributeError _ => AttributeErrorT
  | ExTypeError _ => TypeErrorT
  | ExKeyError _ => KeyErrorT
  | ExValidationError _ _ => ValidationErrorT
  | ExStreamClosed => StreamClosedT
  | ExRemoteProtocolError _ => RemoteProtocolErrorT
  | ExOther cls _ => OtherT cls
  | ExKaiStreamError _ _ _ => KaiStreamErrorT
  end.

Inductive result (A : Type) : Type :=
  | Ok (a : A)
  | Raise (e : exn).
Arguments Ok {A} a.
Arguments Raise {A} e.

#[global] Instance result_ret : MRet result := @Ok.
#[global] Instance result_bind : MBind result := λ A B f m,
  match m with
  | Ok a => f a
  | Raise e => Raise e
  end.

(** [d[key]] on a dict. *)
Definition dict_item (d : gmap string json) (key : string) : result json :=
  match d !! key with
  | Some v => Ok v
  | None => Raise (ExKeyError key)
  end.

(** [obj.get(key, default)] on an arbitrary object: only a dict has [get]. *)
Definition attr_get (obj : json) (key : string) (dflt : json) : result json :=
  match obj with
  | JDict d => Ok (dict_get d key dflt)
  | _ => Raise (ExAttributeError
                  ("'" +:+ type_name obj +:+ "' object has no attribute 'get'"))
  end.

(* ===================================================================== *)
(** ** The event model (kai_client.models)                                *)
(* ===================================================================== *)

(** [kai_client/models.py] is not part of the sources at hand: sse.py only
    imports its classes.  The records below follow the data model of the
    specification (section 3), with the attribute names that sse.py and the
    examples read ([tool_call_id], [state], [finish_reason],
    [usage.prompt_tokens], ...).  An optional attribute ([?] in the
    specification) is an [option]: Python's [None] is [None]. *)

(** Modelled from the spec: class [ToolApproval], "id, approved? (tri-state:
    unset/true/false), reason?". *)
Record ToolApproval : Type := mkToolApproval {
  ta_id : string;
  ta_approved : option bool;
  ta_reason : option string
}.

(** Modelled from the spec: class [UsageInfo], "promptTokens: non-negative
    integer, completionTokens: non-negative integer". *)
Record UsageInfo : Type := mkUsageInfo {
  prompt_tokens : N;
  completion_tokens : N
}.

(** Modelled from the spec: class [TextEvent], "Text{content, phase?}"; the
    attributes are [text] and [state]. *)
Record TextEvent : Type := mkTextEvent {
  te_text : string;
  te_state : option string
}.

(** Modelled from the spec: class [ToolCallEvent], "ToolCall{id, name?,
    phase, input?, output?, approval?}". *)
Record ToolCallEvent : Type := mkToolCallEvent {
  tool_call_id : string;
  tool_name : option string;
  state : string;
  input : option json;
  output : option json;
  approval : option ToolApproval
}.

(** Modelled from the spec: class [ToolOutputErrorEvent],
    "ToolOutputError{id, errorText}". *)
Record ToolOutputErrorEvent : Type := mkToolOutputErrorEvent {
  toe_tool_call_id : string;
  toe_error_text : string
}.

(** Modelled from the spec: class [ToolApprovalRequestEvent],
    "ToolApprovalRequest{approvalId, toolCallId}". *)
Record ToolApprovalRequestEvent : Type := mkToolApprovalRequestEvent {
  tar_approval_id : string;
  tar_tool_call_id : string
}.

(** Modelled from the spec: class [UsageEvent], "Usage{promptTokens,
    completionTokens}", held as a [UsageInfo] under [usage]. *)
Record UsageEvent : Type := mkUsageEvent {
  ue_usage : UsageInfo
}.

(** Modelled from the spec: class [FinishEvent], "Finish{reason, usage?}". *)
Record FinishEvent : Type := mkFinishEvent {
  finish_reason : string;
  fe_usage : option UsageInfo
}.

(** Modelled from the spec: class [ErrorEvent], "Error{message, code?}". *)
Record ErrorEvent : Type := mkErrorEvent {
  ee_message : string;
  ee_code : option string
}.

(** Modelled from the spec: class [UnknownEvent], "Unknown{rawType,
    rawPayload}"; the attributes are [type] and [data]. *)
Record UnknownEvent : Type := mkUnknownEvent {
  ue_type : string;
  ue_data : gmap string json
}.

(** Modelled from the spec: [SSEEvent], the union of the event classes
    ("tagged union, one case per kind"). *)
Inductive SSEEvent : Type :=
  | EText (e : TextEvent)
  | EStepStart
  | EToolCall (e : ToolCallEvent)
  | EToolOutputError (e : ToolOutputErrorEvent)
  | EToolApprovalRequest (e : ToolApprovalRequestEvent)
  | EUsage (e : UsageEvent)
  | EFinish (e : FinishEvent)
  | EError (e : ErrorEvent)
  | EUnknown (e : UnknownEvent).

(** Modelled from the spec: the [type] attribute of an event, which is the
    constant each parser passes, and the raw wire type for [UnknownEvent]. *)
Definition event_type (ev : SSEEvent) : string :=
  match ev with
  | EText _ => "text"
  | EStepStart => "step-start"
  | EToolCall _ => "tool-call"
  | EToolOutputError _ => "tool-output-error"
  | EToolApprovalRequest _ => "tool-approval-request"
  | EUsage _ => "data-usage"
  | EFinish _ => "finish"
  | EError _ => "error"
  | EUnknown u => ue_type u
  end.

(** *** Field validation *)

(** The classes declare the types of their attributes (section 3: strings
    for ids, phases and text, non-negative integers for token counts, opaque
    values for tool input and output).  A value of another type cannot be
    stored: the constructor of the class rejects it, which is
    [ExValidationError] here. *)
Section Validation.
Variables model field : string.

(** Modelled from the spec: an attribute that is a string. *)
Definition as_str (v : json) : result string :=
  match v with
  | JStr s => Ok s
  | _ => Raise (ExValidationError model field)
  end.

(** Modelled from the spec: an optional attribute that is a string. *)
Definition as_opt_str (v : json) : result (option string) :=
  match v with
  | JNull => Ok None
  | JStr s => Ok (Some s)
  | _ => Raise (ExValidationError model field)
  end.

(** Modelled from the spec: an optional attribute that is a boolean. *)
Definition as_opt_bool (v : json) : result (option bool) :=
  match v with
  | JNull => Ok None
  | JBool b => Ok (Some b)
  | _ => Raise (ExValidationError model field)
  end.

(** Modelled from the spec: an attribute that is a non-negative integer. *)
Definition as_count (v : json) : result N :=
  match v with
  | JInt z => if (0 <=? z)%Z then Ok (Z.to_N z)
              else Raise (ExValidationError model field)
  | _ => Raise (ExValidationError model field)
  end.
End Validation.

(** Modelled from the spec: an optional attribute that holds any value. *)
Definition as_opt_any (v : json) : option json :=
  match v with
  | JNull => None
  | _ => Some v
  end.

(** The constructors of the event classes, called by sse.py with keyword
    arguments.  Each takes the values sse.py passes, in the order of the
    keywords, and validates them against the attribute types. *)

(** Modelled from the spec: [ToolApproval(id=, approved=, reason=)]. *)
Definition new_ToolApproval (id approved reason : json) : result ToolApproval :=
  id' ← as_str "ToolApproval" "id" id;
  approved' ← as_opt_bool "ToolApproval" "approved" approved;
  reason' ← as_opt_str "ToolApproval" "reason" reason;
  mret (mkToolApproval id' approved' reason').

(** Modelled from the spec: [UsageInfo(promptTokens=, completionTokens=)]. *)
Definition new_UsageInfo (promptTokens completionTokens : json) : result UsageInfo :=
  p ← as_count "UsageInfo" "promptTokens" promptTokens;
  c ← as_count "UsageInfo" "completionTokens" completionTokens;
  mret (mkUsageInfo p c).

(** Modelled from the spec: [TextEvent(type="text", text=, state=)]. *)
Definition new_TextEvent (text state_ : json) : result SSEEvent :=
  t ← as_str "TextEvent" "text" text;
  s ← as_opt_str "TextEvent" "state" state_;
  mret (EText (mkTextEvent t s)).

(** Modelled from the spec: [StepStartEvent(type="step-start")]. *)
Definition new_StepStartEvent : result SSEEvent := mret EStepStart.

(** Modelled from the spec: [ToolCallEvent(type="tool-call", toolCallId=,
    toolName=, state=, input=, output=, approval=)]; [approval] is [None]
    when the keyword is not passed. *)
Definition new_ToolCallEvent (toolCallId toolName state_ input_ output_ : json)
    (approval_ : option ToolApproval) : result SSEEvent :=
  i ← as_str "ToolCallEvent" "toolCallId" toolCallId;
  n ← as_opt_str "ToolCallEvent" "toolName" toolName;
  s ← as_str "ToolCallEvent" "state" state_;
  mret (EToolCall (mkToolCallEvent i n s (as_opt_any input_) (as_opt_any output_)
                     approval_)).

(** Modelled from the spec: [ToolOutputErrorEvent(type=, toolCallId=,
    errorText=)]. *)
Definition new_ToolOutputErrorEvent (toolCallId errorText : json) : result SSEEvent :=
  i ← as_str "ToolOutputErrorEvent" "toolCallId" toolCallId;
  t ← as_str "ToolOutputErrorEvent" "errorText" errorText;
  mret (EToolOutputError (mkToolOutputErrorEvent i t)).

(** Modelled from the spec: [ToolApprovalRequestEvent(type=, approvalId=,
    toolCallId=)]. *)
Definition new_ToolApprovalRequestEvent (approvalId toolCallId : json)
    : result SSEEvent :=
  a ← as_str "ToolApprovalRequestEvent" "approvalId" approvalId;
  i ← as_str "ToolApprovalRequestEvent" "toolCallId" toolCallId;
  mret (EToolApprovalRequest (mkToolApprovalRequestEvent a i)).

(** Modelled from the spec: [UsageEvent(type="data-usage", usage=)]. *)
Definition new_UsageEvent (usage : UsageInfo) : result SSEEvent :=
  mret (EUsage (mkUsageEvent usage)).

(** Modelled from the spec: the embedded usage of a finish record, passed
    as the raw value, is [None] or a mapping holding the two counters. *)
Definition validate_usage (usage : json) : result (option UsageInfo) :=
  match usage with
  | JNull => Ok None
  | JDict d =>
      match d !! "promptTokens", d !! "completionTokens" with
      | Some p, Some c => u ← new_UsageInfo p c; mret (Some u)
      | _, _ => Raise (ExValidationError "FinishEvent" "usage")
      end
  | _ => Raise (ExValidationError "FinishEvent" "usage")
  end.

(** Modelled from the spec: [FinishEvent(type="finish", finishReason=,
    usage=)]. *)
Definition new_FinishEvent (finishReason usage : json) : result SSEEvent :=
  r ← as_str "FinishEvent" "finishReason" finishReason;
  u ← validate_usage usage;
  mret (EFinish (mkFinishEvent r u)).

(** Modelled from the spec: [ErrorEvent(type="error", message=, code=)]. *)
Definition new_ErrorEvent (message code : json) : result SSEEvent :=
  m ← as_str "ErrorEvent" "message" message;
  c ← as_opt_str "ErrorEvent" "code" code;
  mret (EError (mkErrorEvent m c)).

(** Modelled from the spec: [UnknownEvent(type=, data=)]; the payload is a
    mapping. *)
Definition new_UnknownEvent (type_ data : json) : result SSEEvent :=
  t ← as_str "UnknownEvent" "type" type_;
  match data with
  | JDict d => mret (EUnknown (mkUnknownEvent t d))
  | _ => Raise (ExValidationError "UnknownEvent" "data")
  end.

(* ===================================================================== *)
(** ** Individual event parsers                                           *)
(* ===================================================================== *)

(** Each [data.get(...)] of the source is an [attr_get]: the annotation
    [dict[str, Any]] is not enforced, and a value that is not a dict has no
    [get].  Keyword arguments are evaluated from left to right. *)

(** Parse the approval field from a tool call event, if present. *)
Definition _parse_approval (data : json) : result (option ToolApproval) :=
  approval_data ← attr_get data "approval" JNull;
  match approval_data with
  | JDict d =>
      if truthy approval_data && is_dict approval_data && dict_contains d "id" then
        id ← dict_item d "id";
        approved ← attr_get approval_data "approved" JNull;
        reason ← attr_get approval_data "reason" JNull;
        a ← new_ToolApproval id approved reason;
        mret (Some a)
      else mret None
  | _ => mret None
  end.

(** Parse a text event (local format). *)
Definition _parse_text_event (data : json) : result SSEEvent :=
  text ← attr_get data "text" (JStr "");
  state_ ← attr_get data "state" JNull;
  new_TextEvent text state_.

(** Parse a text-delta event (production format). *)
Definition _parse_text_delta_event (data : json) : result SSEEvent :=
  text ← attr_get data "delta" (JStr "");
  state_ ← attr_get data "state" JNull;
  new_TextEvent text state_.

(** Parse a step-start or start-step event. *)
Definition _parse_step_start_event (data : json) : result SSEEvent :=
  new_StepStartEvent.

(** Parse a tool-call event (local format). *)
Definition _parse_tool_call_event (data : json) : result SSEEvent :=
  toolCallId ← attr_get data "toolCallId" (JStr "");
  toolName ← attr_get data "toolName" JNull;
  state_ ← attr_get data "state" (JStr "");
  input_ ← attr_get data "input" JNull;
  output_ ← attr_get data "output" JNull;
  approval_ ← _parse_approval data;
  new_ToolCallEvent toolCallId toolName state_ input_ output_ approval_.

(** Parse a tool-input-start event (production format: tool call begins). *)
Definition _parse_tool_input_start_event (data : json) : result SSEEvent :=
  toolCallId ← attr_get data "toolCallId" (JStr "");
  toolName ← attr_get data "toolName" JNull;
  new_ToolCallEvent toolCallId toolName (JStr "started") JNull JNull None.

(** Parse a tool-input-available event (production format: full input ready). *)
Definition _parse_tool_input_available_event (data : json) : result SSEEvent :=
  toolCallId ← attr_get data "toolCallId" (JStr "");
  toolName ← attr_get data "toolName" JNull;
  input_ ← attr_get data "input" JNull;
  approval_ ← _parse_approval data;
  new_ToolCallEvent toolCallId toolName (JStr "input-available") input_ JNull approval_.

(** Parse a tool-output-available event (production format: tool completed). *)
Definition _parse_tool_output_available_event (data : json) : result SSEEvent :=
  toolCallId ← attr_get data "toolCallId" (JStr "");
  toolName ← attr_get data "toolName" JNull;
  output_ ← attr_get data "output" JNull;
  new_ToolCallEvent toolCallId toolName (JStr "output-available") JNull output_ None.

(** Parse a finish or finish-step event. *)
Definition _parse_finish_event (data : json) : result SSEEvent :=
  usage ← attr_get data "usage" JNull;
  finishReason ← attr_get data "finishReason" (JStr "stop");
  new_FinishEvent finishReason (if truthy usage then usage else JNull).

(** Parse an error event. *)
Definition _parse_error_event (data : json) : result SSEEvent :=
  message ← attr_get data "message" (JStr "Unknown error");
  code ← attr_get data "code" JNull;
  new_ErrorEvent message code.

(** Parse a tool-output-error event (production format: tool execution failed). *)
Definition _parse_tool_output_error_event (data : json) : result SSEEvent :=
  toolCallId ← attr_get data "toolCallId" (JStr "");
  errorText ← attr_get data "errorText" (JStr "Unknown error");
  new_ToolOutputErrorEvent toolCallId errorText.

(** Parse a tool-approval-request event. *)
Definition _parse_tool_approval_request_event (data : json) : result SSEEvent :=
  approvalId ← attr_get data "approvalId" (JStr "");
  toolCallId ← attr_get data "toolCallId" (JStr "");
  new_ToolApprovalRequestEvent approvalId toolCallId.

(** Parse a data-usage event: [{ type: "data-usage", data: { promptTokens,
    completionTokens } }]. *)
Definition _parse_usage_event (data : json) : result SSEEvent :=
  usage_data ← attr_get data "data" (JDict ∅);
  promptTokens ← attr_get usage_data "promptTokens" (JInt 0);
  completionTokens ← attr_get usage_data "completionTokens" (JInt 0);
  usage ← new_UsageInfo promptTokens completionTokens;
  new_UsageEvent usage.

(* ===================================================================== *)
(** ** Event parser dispatch table                                        *)
(* ===================================================================== *)

Definition EVENT_PARSERS : gmap string (json → result SSEEvent) :=
  list_to_map [
    ("text", _parse_text_event);
    ("text-delta", _parse_text_delta_event);
    ("step-start", _parse_step_start_event);
    ("start-step", _parse_step_start_event);
    ("tool-call", _parse_tool_call_event);
    ("tool-input-start", _parse_tool_input_start_event);
    ("tool-input-available", _parse_tool_input_available_event);
    ("tool-output-available", _parse_tool_output_available_event);
    ("tool-output-error", _parse_tool_output_error_event);
    ("tool-approval-request", _parse_tool_approval_request_event);
    ("data-usage", _parse_usage_event);
    ("finish", _parse_finish_event);
    ("finish-step", _parse_finish_event);
    ("error", _parse_error_event)
  ].

(** [EVENT_PARSERS.get(event_type)]: the key is whatever the record holds
    under "type".  A list or a dict cannot be hashed; a key that is not a
    string equals none of the table's keys. *)
Definition EVENT_PARSERS_get (key : json)
    : result (option (json → result SSEEvent)) :=
  match key with
  | JStr s => Ok (EVENT_PARSERS !! s)
  | JList _ | JDict _ =>
      Raise (ExTypeError ("unhashable type: '" +:+ type_name key +:+ "'"))
  | _ => Ok None
  end.

(** Parse a raw SSE event dictionary into a typed event model. *)
Definition parse_sse_event (data : json) : result SSEEvent :=
  event_type_ ← attr_get data "type" (JStr "");
  parser ← EVENT_PARSERS_get event_type_;
  match parser with
  | Some parse => parse data
  | None => new_UnknownEvent event_type_ data
  end.

(* ===================================================================== *)
(** ** Strings                                                            *)
(* ===================================================================== *)

(** [s.startswith(p)]. *)
Definition startswith (s p : string) : bool := String.prefix p s.

(** [s[n:]]. *)
Fixpoint str_from (n : nat) (s : string) : string :=
  match n, s with
  | O, _ => s
  | S n', String _ s' => str_from n' s'
  | S _, EmptyString => EmptyString
  end.

(** The characters [str.strip()] removes: Python's [str.isspace] on the code
    points below 256. *)
Definition is_space (c : ascii) : bool :=
  let n := nat_of_ascii c in
  ((9 <=? n)%nat && (n <=? 13)%nat) || ((28 <=? n)%nat && (n <=? 32)%nat)
  || (n =? 133)%nat || (n =? 160)%nat.

Fixpoint lstrip (s : string) : string :=
  match s with
  | String c s' => if is_space c then lstrip s' else s
  | EmptyString => EmptyString
  end.

Fixpoint rstrip (s : string) : string :=
  match s with
  | String c s' =>
      match rstrip s' with
      | EmptyString => if is_space c then EmptyString else String c EmptyString
      | r => String c r
      end
  | EmptyString => EmptyString
  end.

(** [s.strip()]. *)
Definition strip (s : string) : string := rstrip (lstrip s).

(** [sep.join(parts)]. *)
Definition str_join (sep : string) (parts : list string) : string :=
  String.concat sep parts.

(* ===================================================================== *)
(** ** Text of the exceptions                                             *)
(* ===================================================================== *)

(** Line and column of position [pos] in [doc], as [JSONDecodeError]
    computes them: [lineno = doc.count('\n', 0, pos) + 1] and
    [colno = pos - doc.rindex('\n', 0, pos)], or [pos + 1] on the first
    line. *)
Fixpoint linecol (doc : string) (pos : nat) (line col : nat) : nat * nat :=
  match pos, doc with
  | O, _ => (line, col)
  | S p, String c rest =>
      if Ascii.eqb c "010"%char then linecol rest p (S line) 1
      else linecol rest p line (S col)
  | S p, EmptyString => (line, col + S p)
  end.

(** [str(e)] of a [JSONDecodeError]:
    ["%s: line %d column %d (char %d)"]. *)
Definition str_JSONDecodeError (e : JSONDecodeError) : string :=
  let '(line, col) := linecol (jde_doc e) (jde_pos e) 1 1 in
  jde_msg e +:+ ": line " +:+ pretty line +:+ " column " +:+ pretty col
    +:+ " (char " +:+ pretty (jde_pos e) +:+ ")".

(* ===================================================================== *)
(** ** The SSE line reader                                                *)
(* ===================================================================== *)

(** The way [response.aiter_lines()] ends: the lines are exhausted, or the
    transport raises. *)
Inductive stream_end : Type :=
  | EndOfStream
  | StreamFault (e : exn).

(** An httpx response being streamed: the lines it delivers, then its end. *)
Record Response : Type := mkResponse {
  aiter_lines : list string;
  aiter_end : stream_end
}.

(** What an (async) generator does: the values it yields, in order, and the
    exception that ends it, if any. *)
Record generator (A : Type) : Type := mkGenerator {
  yielded : list A;
  raised : option exn
}.
Arguments mkGenerator {A} yielded raised.
Arguments yielded {A} g.
Arguments raised {A} g.

Definition gen_yield {A} (x : A) (g : generator A) : generator A :=
  mkGenerator (x :: yielded g) (raised g).

(** [except json.JSONDecodeError as e: raise KaiStreamError(...) from e]. *)
Definition except_JSONDecodeError (e : exn) : exn :=
  match e with
  | ExJSONDecodeError d =>
      ExKaiStreamError ("Failed to parse SSE event: " +:+ str_JSONDecodeError d)
        (str_JSONDecodeError d) e
  | _ => e
  end.

(** [except httpx.StreamClosed: pass] and
    [except httpx.RemoteProtocolError as e: raise KaiStreamError(...) from e]:
    [None] when the exception is swallowed.  The text [str(e)] of an httpx
    exception is its message. *)
Definition except_transport (e : exn) : option exn :=
  match e with
  | ExStreamClosed => None
  | ExRemoteProtocolError msg =>
      Some (ExKaiStreamError "Connection error during streaming" msg e)
  | _ => Some e
  end.

(** What one iteration of the loop does with its line. *)
Inductive line_step : Type :=
  | Continue
  | Yield (ev : SSEEvent)
  | Abort (e : exn).

(** What the decoder of Python's [json] module does with a document: it
    returns the value; or it finds the document malformed and reports a
    message and a position; or it gives up with an exception of another
    class before it has judged the document, a [ValueError] when an integer
    literal exceeds the digit limit of [int], a [RecursionError] when the
    nesting is too deep. *)
Inductive decoded : Type :=
  | Decoded (v : json)
  | Malformed (msg : string) (pos : nat)
  | Refused (cls msg : string).

Section Reader.
(** The decoder, which is not part of the repository. *)
Variable scan : string → decoded.

(** [json.loads(s)]: on a malformed document it raises
    [JSONDecodeError(msg, s, pos)]. *)
Definition json_loads (s : string) : result json :=
  match scan s with
  | Decoded v => Ok v
  | Malformed msg pos => Raise (ExJSONDecodeError (mkJSONDecodeError msg s pos))
  | Refused cls msg => Raise (ExOther cls msg)
  end.

(** The body of [async for line in response.aiter_lines()]. *)
Definition read_line (line : string) : line_step :=
  if negb (truthy (JStr line)) || startswith line ":" then Continue
  else if startswith line "data: " then
    let json_str := str_from 6 line in
    let stripped := strip json_str in
    if negb (truthy (JStr stripped)) then Continue
    else if String.eqb stripped "[DONE]" then Continue
    else
      match data ← json_loads json_str; parse_sse_event data with
      | Ok ev => Yield ev
      | Raise e => Abort (except_JSONDecodeError e)
      end
  else if startswith line "event: " then Continue
  else if startswith line "id: " then Continue
  else if startswith line "retry: " then Continue
  else Continue.

(** The loop, inside the outer [try]. *)
Fixpoint read_lines (lines : list string) (fin : stream_end) : generator SSEEvent :=
  match lines with
  | [] =>
      match fin with
      | EndOfStream => mkGenerator [] None
      | StreamFault e => mkGenerator [] (Some e)
      end
  | line :: rest =>
      match read_line line with
      | Continue => read_lines rest fin
      | Yield ev => gen_yield ev (read_lines rest fin)
      | Abort e => mkGenerator [] (Some e)
      end
  end.

(** Parse an SSE stream from an httpx response. *)
Definition parse_sse_stream (response : Response) : generator SSEEvent :=
  let g := read_lines (aiter_lines response) (aiter_end response) in
  mkGenerator (yielded g) (raised g ≫= except_transport).
End Reader.

(* ===================================================================== *)
(** ** The stream accumulator                                             *)
(* ===================================================================== *)

(** [class SSEStreamParser]: a stateful parser that accumulates text events
    and tracks tool calls.  A method that mutates [self] returns the new
    [self]. *)
Module SSEStreamParser.

Record t : Type := mk {
  _accumulated_text : list string;
  _tool_calls : gmap string ToolCallEvent;
  _finished : bool;
  _finish_reason : option string;
  _prompt_tokens : N;
  _completion_tokens : N
}.

(** [__init__]. *)
Definition init : t := mk [] ∅ false None 0%N 0%N.

(** Process an SSE event and update internal state.  An event class is
    truthy, so [if event.usage:] asks whether the usage is there. *)
Definition process_event (self : t) (event : SSEEvent) : t :=
  match event with
  | EText e =>
      mk (_accumulated_text self ++ [te_text e]) (_tool_calls self)
         (_finished self) (_finish_reason self)
         (_prompt_tokens self) (_completion_tokens self)
  | EToolCall e =>
      mk (_accumulated_text self) (<[tool_call_id e := e]> (_tool_calls self))
         (_finished self) (_finish_reason self)
         (_prompt_tokens self) (_completion_tokens self)
  | EUsage e =>
      mk (_accumulated_text self) (_tool_calls self)
         (_finished self) (_finish_reason self)
         (_prompt_tokens self + prompt_tokens (ue_usage e))
         (_completion_tokens self + completion_tokens (ue_usage e))
  | EFinish e =>
      match fe_usage e with
      | Some usage =>
          mk (_accumulated_text self) (_tool_calls self)
             true (Some (finish_reason e))
             (_prompt_tokens self + prompt_tokens usage)
             (_completion_tokens self + completion_tokens usage)
      | None =>
          mk (_accumulated_text self) (_tool_calls self)
             true (Some (finish_reason e))
             (_prompt_tokens self) (_completion_tokens self)
      end
  | _ => self
  end.

(** Reset the parser state. *)
Definition reset (self : t) : t := mk [] ∅ false None 0%N 0%N.

(** The properties. *)
Definition text (self : t) : string := str_join "" (_accumulated_text self).
Definition tool_calls (self : t) : gmap string ToolCallEvent := _tool_calls self.
Definition finished (self : t) : bool := _finished self.
Definition finish_reason (self : t) : option string := _finish_reason self.
Definition prompt_tokens (self : t) : N := _prompt_tokens self.
Definition completion_tokens (self : t) : N := _completion_tokens self.
Definition total_tokens (self : t) : N :=
  (_prompt_tokens self + _completion_tokens self)%N.

(** [process_event] over all the events of a sequence, in order. *)
Definition process_events (self : t) (events : list SSEEvent) : t :=
  fold_left process_event events self.

(** Consume an SSE stream, processing and optionally yielding events: the
    state once the generator is exhausted, and what the generator did. *)
Definition consume_stream (scan : string → decoded) (self : t)
    (response : Response) (yield_events : bool) : t * generator SSEEvent :=
  let g := parse_sse_stream scan response in
  (process_events self (yielded g),
   mkGenerator (if yield_events then yielded g else []) (raised g)).

End SSEStreamParser.

(* ===================================================================== *)
(** ** The tool-call tracker (examples/test_tool_confirmation.py)          *)
(* ===================================================================== *)

(** A Python dict whose iteration order is observed: the bindings in the
    order their keys were first inserted.  Assigning to a key that is there
    replaces its value in place. *)
Fixpoint odict_set {V} (d : list (string * V)) (k : string) (v : V)
    : list (string * V) :=
  match d with
  | [] => [(k, v)]
  | (k', v') :: rest =>
      if String.eqb k' k then (k, v) :: rest else (k', v') :: odict_set rest k v
  end.

Fixpoint odict_get {V} (d : list (string * V)) (k : string) : option V :=
  match d with
  | [] => None
  | (k', v') :: rest => if String.eqb k' k then Some v' else odict_get rest k
  end.

(** [event.text]: only a [TextEvent] has the attribute.  The loop asks for it
    when [event.type] is "text", which an [UnknownEvent] built by hand could
    also claim. *)
Definition attr_text (event : SSEEvent) : result string :=
  match event with
  | EText e => Ok (te_text e)
  | _ => Raise (ExAttributeError "'UnknownEvent' object has no attribute 'text'")
  end.

(** The locals of [stream_and_collect]. *)
Record collected : Type := mkCollected {
  text_parts : list string;
  all_events : list SSEEvent;
  tool_states : list (string * ToolCallEvent)
}.

(** The body of [async for event in client.send_message(chat_id, message)]. *)
Definition collect_event (c : collected) (event : SSEEvent) : result collected :=
  let all_events' := all_events c ++ [event] in
  if String.eqb (event_type event) "text" then
    t ← attr_text event;
    mret (mkCollected (text_parts c ++ [t]) all_events' (tool_states c))
  else
    match String.eqb (event_type event) "tool-call", event with
    | true, EToolCall e =>
        mret (mkCollected (text_parts c) all_events'
                (odict_set (tool_states c) (tool_call_id e) e))
    | _, _ => mret (mkCollected (text_parts c) all_events' (tool_states c))
    end.

Fixpoint collect_events (c : collected) (events : list SSEEvent) : result collected :=
  match events with
  | [] => Ok c
  | event :: rest => c' ← collect_event c event; collect_events c' rest
  end.

(** The tools that need approval: those whose last event reached
    "input-available". *)
Definition pending_tools (tool_states : list (string * ToolCallEvent))
    : list ToolCallEvent :=
  snd <$> filter (λ kv, String.eqb (state kv.2) "input-available" = true) tool_states.

(** [stream_and_collect], given what [client.send_message] generates: the
    tuple [(text_parts, all_events, tool_states, pending_tools)], unless the
    stream or the loop body raises. *)
Definition stream_and_collect (events : generator SSEEvent)
    : result (list string * list SSEEvent * list (string * ToolCallEvent)
              * list ToolCallEvent) :=
  c ← collect_events (mkCollected [] [] []) (yielded events);
  match raised events with
  | Some e => Raise e
  | None =>
      mret (text_parts c, all_events c, tool_states c,
            pending_tools (tool_states c))
  end.

(** The same query on the accumulator's map: the ids whose recorded event is
    in phase "input-available". *)
Definition is_pending (calls : gmap string ToolCallEvent) (id : string) : bool :=
  match calls !! id with
  | Some e => String.eqb (state e) "input-available"
  | None => false
  end.

(* ===================================================================== *)
(** * Vocabulary of the properties                                        *)
(* ===================================================================== *)

(** What the statements below talk about: the contents of an event
    sequence, the event case of a wire type, sample records, events and
    streams, and the readings of the specification that the code does not
    follow. *)

(** The fragment of a [Text] event. *)
Definition event_fragment (ev : SSEEvent) : option string :=
  match ev with
  | EText e => Some (te_text e)
  | _ => None
  end.

(** The fragments of the [Text] events of a sequence, in delivery order. *)
Definition text_fragments (events : list SSEEvent) : list string :=
  omap event_fragment events.

(** The [ToolCall] events of a sequence, in delivery order. *)
Definition tool_call_events (events : list SSEEvent) : list ToolCallEvent :=
  omap (λ ev, match ev with EToolCall e => Some e | _ => None end) events.

(** The most recently processed [ToolCall] event of an id. *)
Definition latest_tool_call (id : string) (events : list SSEEvent)
    : option ToolCallEvent :=
  last (filter (λ e, tool_call_id e = id) (tool_call_events events)).

(** The usage records a sequence carries: one per [Usage] event and one per
    [Finish] event with an embedded usage. *)
Definition usage_records (events : list SSEEvent) : list UsageInfo :=
  omap (λ ev, match ev with
              | EUsage e => Some (ue_usage e)
              | EFinish e => fe_usage e
              | _ => None
              end) events.

Definition sum_N (l : list N) : N := foldr N.add 0%N l.

(** The cases of the event model. *)
Inductive event_kind : Type :=
  | KText | KStepStart | KToolCall | KToolOutputError | KToolApprovalRequest
  | KUsage | KFinish | KError | KUnknown.

Definition kind_of (ev : SSEEvent) : event_kind :=
  match ev with
  | EText _ => KText
  | EStepStart => KStepStart
  | EToolCall _ => KToolCall
  | EToolOutputError _ => KToolOutputError
  | EToolApprovalRequest _ => KToolApprovalRequest
  | EUsage _ => KUsage
  | EFinish _ => KFinish
  | EError _ => KError
  | EUnknown _ => KUnknown
  end.

(** The event case of each wire type: "Two same-semantic wire types may map
    to the same Event case" (section 4.2). *)
Definition wire_kind (type_ : string) : event_kind :=
  if bool_decide (type_ ∈ ["text"; "text-delta"]) then KText
  else if bool_decide (type_ ∈ ["step-start"; "start-step"]) then KStepStart
  else if bool_decide (type_ ∈ ["tool-call"; "tool-input-start";
                                "tool-input-available"; "tool-output-available"])
       then KToolCall
  else if bool_decide (type_ = "tool-output-error") then KToolOutputError
  else if bool_decide (type_ = "tool-approval-request") then KToolApprovalRequest
  else if bool_decide (type_ = "data-usage") then KUsage
  else if bool_decide (type_ ∈ ["finish"; "finish-step"]) then KFinish
  else if bool_decide (type_ = "error") then KError
  else KUnknown.

(** The fragment a raw record contributes to the text: the "text" field of a
    record of type "text", the "delta" field of a record of type
    "text-delta", nothing for any other record. *)
Definition wire_fragment (data : json) : option string :=
  match data with
  | JDict d =>
      match dict_get d "type" (JStr "") with
      | JStr type_ =>
          if String.eqb type_ "text" then
            match dict_get d "text" (JStr "") with
            | JStr s => Some s
            | _ => None
            end
          else if String.eqb type_ "text-delta" then
            match dict_get d "delta" (JStr "") with
            | JStr s => Some s
            | _ => None
            end
          else None
      | _ => None
      end
  | _ => None
  end.

(** A record of the local dialect and a record of the production dialect. *)
Definition record_text (s : string) : json :=
  JDict (<["type" := JStr "text"]> (<["text" := JStr s]> ∅)).

Definition record_text_delta (s : string) : json :=
  JDict (<["type" := JStr "text-delta"]> (<["delta" := JStr s]> ∅)).

Definition record_finish (reason : string) : json :=
  JDict (<["type" := JStr "finish"]> (<["finishReason" := JStr reason]> ∅)).

(** The reading of the lifecycle sentence under which a finished state is
    frozen: processing [ev] in a finished state changes no field. *)
Definition frozen_once_finished (self : SSEStreamParser.t) (ev : SSEEvent) : Prop :=
  SSEStreamParser._finished self = true →
  let self' := SSEStreamParser.process_event self ev in
  SSEStreamParser._accumulated_text self' = SSEStreamParser._accumulated_text self
  ∧ SSEStreamParser._tool_calls self' = SSEStreamParser._tool_calls self
  ∧ SSEStreamParser._finished self' = SSEStreamParser._finished self
  ∧ SSEStreamParser._finish_reason self' = SSEStreamParser._finish_reason self
  ∧ SSEStreamParser._prompt_tokens self' = SSEStreamParser._prompt_tokens self
  ∧ SSEStreamParser._completion_tokens self'
    = SSEStreamParser._completion_tokens self.

(** The accumulator after a stream that only said "finish". *)
Definition finished_parser : SSEStreamParser.t :=
  SSEStreamParser.process_event SSEStreamParser.init
    (EFinish (mkFinishEvent "stop" None)).

(** The accumulator with its [finished] flag set to [b]. *)
Definition set_finished (b : bool) (self : SSEStreamParser.t) : SSEStreamParser.t :=
  SSEStreamParser.mk
    (SSEStreamParser._accumulated_text self) (SSEStreamParser._tool_calls self)
    b (SSEStreamParser._finish_reason self)
    (SSEStreamParser._prompt_tokens self) (SSEStreamParser._completion_tokens self).

(** Two accumulators that agree on every field but, possibly, [finished]. *)
Definition same_but_finished (s1 s2 : SSEStreamParser.t) : Prop :=
  SSEStreamParser._accumulated_text s1 = SSEStreamParser._accumulated_text s2
  ∧ SSEStreamParser._tool_calls s1 = SSEStreamParser._tool_calls s2
  ∧ SSEStreamParser._finish_reason s1 = SSEStreamParser._finish_reason s2
  ∧ SSEStreamParser._prompt_tokens s1 = SSEStreamParser._prompt_tokens s2
  ∧ SSEStreamParser._completion_tokens s1 = SSEStreamParser._completion_tokens s2.

(** The events [process_event] has no branch for. *)
Definition ignored_by_accumulator (ev : SSEEvent) : bool :=
  match kind_of ev with
  | KText | KToolCall | KUsage | KFinish => false
  | _ => true
  end.

(** The keys are distinct and each event is filed under its own id. *)
Definition odict_wf (d : list (string * ToolCallEvent)) : Prop :=
  NoDup d.*1 ∧ Forall (λ kv, kv.1 = tool_call_id kv.2) d.

(** The map the tracker builds: one upsert per [ToolCall] event. *)
Definition upsert_calls (events : list SSEEvent)
    (tool_states : list (string * ToolCallEvent)) : list (string * ToolCallEvent) :=
  fold_left (λ ts ev, match ev with
                      | EToolCall e => odict_set ts (tool_call_id e) e
                      | _ => ts
                      end) events tool_states.

(** An event that came out of the normalizer. *)
Definition normalized (ev : SSEEvent) : Prop :=
  ∃ data, parse_sse_event data = Ok ev.

(** The three phases of a call of the production dialect. *)
Definition tool_started (id name : string) : ToolCallEvent :=
  mkToolCallEvent id (Some name) "started" None None None.

Definition tool_input_available (id name : string) : ToolCallEvent :=
  mkToolCallEvent id (Some name) "input-available" (Some (JDict ∅)) None None.

Definition tool_output_available (id name : string) : ToolCallEvent :=
  mkToolCallEvent id (Some name) "output-available" None (Some (JStr "ok")) None.

(** The reading under which a completed call stays out of the pending set:
    if an output-available event of [id] is followed, later in the sequence,
    by an input-available event of the same id, then [id] is not pending at
    the end. *)
Definition completed_stays_completed (events : list SSEEvent) (id : string) : Prop :=
  (∃ pre mid rest completed available,
     events = pre ++ EToolCall completed :: mid ++ EToolCall available :: rest
     ∧ tool_call_id completed = id ∧ state completed = "output-available"
     ∧ tool_call_id available = id ∧ state available = "input-available") →
  is_pending
    (SSEStreamParser.tool_calls
       (SSEStreamParser.process_events SSEStreamParser.init events)) id = false.

(** The reading of the sentence under which an approval is attached only
    for a non-empty id. *)
Definition approval_needs_nonempty_id (data : json) : Prop :=
  ∀ e a, parse_sse_event data = Ok (EToolCall e) → approval e = Some a →
    ∃ d ad id, data = JDict d ∧ d !! "approval" = Some (JDict ad)
               ∧ ad !! "id" = Some (JStr id) ∧ id ≠ "".

(** [{"type": "tool-input-available", "toolCallId": "t1",
      "approval": {"id": ""}}]. *)
Definition record_empty_approval_id : json :=
  JDict (<["type" := JStr "tool-input-available"]>
          (<["toolCallId" := JStr "t1"]>
            (<["approval" := JDict (<["id" := JStr ""]> ∅)]> ∅))).

(** [{"type": "finish-step", "usage": {"promptTokens": 1,
      "completionTokens": 1}}]. *)
Definition record_finish_step_usage : json :=
  JDict (<["type" := JStr "finish-step"]>
          (<["usage" := JDict (<["promptTokens" := JInt 1]>
                                (<["completionTokens" := JInt 1]> ∅))]> ∅)).

(** [{"type": "data-usage", "data": v}]. *)
Definition record_usage (v : json) : json :=
  JDict (<["type" := JStr "data-usage"]> (<["data" := v]> ∅)).

(** The answers of [json.loads] on the documents the examples below feed to
    the reader: the empty object; the malformed [{not-json}] (an object must
    continue with a quoted property name: the error is at index 1); the
    marker [[DONE]], which is not JSON either (no value starts at index 1).
    The last line stands for the documents the examples never decode. *)
Definition scan_examples (s : string) : decoded :=
  if String.eqb s "{}" then Decoded (JDict ∅)
  else if String.eqb s "{not-json}" then
    Malformed "Expecting property name enclosed in double quotes" 1
  else if String.eqb s "[DONE]" then Malformed "Expecting value" 1
  else Malformed "Expecting value" 0.

(** The reading under which the two failures have different error types:
    whatever a protocol error of the transport is surfaced as differs in
    class from what a malformed payload is surfaced as. *)
Definition distinct_error_types (scan : string → decoded)
    (faulty malformed : Response) : Prop :=
  ∀ e1 e2,
    raised (parse_sse_stream scan faulty) = Some e1 →
    raised (parse_sse_stream scan malformed) = Some e2 →
    class_of e1 ≠ class_of e2.

(* ===================================================================== *)
(** ** The approval decision of the example (test_tool_confirmation.py)    *)
(* ===================================================================== *)

(** The continuation call the example issues for a pending tool: the method
    of the client and the arguments it is called with (the client itself is
    not part of the sources at hand; [chat_id] is left out). *)
Inductive client_call : Type :=
  | reject_tool (approval_id : string) (reason : option string)
  | deny_tool (tool_call_id_ tool_name_ : string)
  | approve_tool (approval_id : string) (reason : option string)
  | confirm_tool (tool_call_id_ tool_name_ : string).

(** [pending.approval is not None and hasattr(pending.approval, "id") and
    pending.approval.id], as a truth value. *)
Definition has_v6_approval (pending : ToolCallEvent) : bool :=
  match approval pending with
  | Some a => truthy (JStr (ta_id a))
  | None => false
  end.

(** [pending.tool_name or "unknown"]. *)
Definition tool_name_or_unknown (pending : ToolCallEvent) : string :=
  match tool_name pending with
  | Some name => if truthy (JStr name) then name else "unknown"
  | None => "unknown"
  end.

(** [pending.approval.id]: the branch that reads it is taken only when the
    approval is there. *)
Definition approval_id_of (pending : ToolCallEvent) : string :=
  match approval pending with
  | Some a => ta_id a
  | None => ""
  end.

(** Test 2: deny the last pending tool; [None] when the test is skipped
    because no tool is pending. *)
Definition deny_pending (pending_tools : list ToolCallEvent) : option client_call :=
  match last pending_tools with
  | Some pending =>
      if has_v6_approval pending then
        Some (reject_tool (approval_id_of pending)
                (Some "Testing rejection - do not modify"))
      else
        Some (deny_tool (tool_call_id pending) (tool_name_or_unknown pending))
  | None => None
  end.

(** Test 3: approve the last pending tool; [None] when none is pending. *)
Definition approve_pending (pending_tools : list ToolCallEvent) : option client_call :=
  match last pending_tools with
  | Some pending =>
      if has_v6_approval pending then
        Some (approve_tool (approval_id_of pending) (Some "Approved for testing"))
      else
        Some (confirm_tool (tool_call_id pending) (tool_name_or_unknown pending))
  | None => None
  end.

(* ===================================================================== *)
(** * Vocabulary of the further properties                                *)
(* ===================================================================== *)

(** The fields of a record that the parser of a wire type reads, besides
    "type". *)
Definition fields_read (type_ : string) : list string :=
  if bool_decide (type_ = "text") then ["text"; "state"]
  else if bool_decide (type_ = "text-delta") then ["delta"; "state"]
  else if bool_decide (type_ = "tool-call") then
    ["toolCallId"; "toolName"; "state"; "input"; "output"; "approval"]
  else if bool_decide (type_ = "tool-input-start") then ["toolCallId"; "toolName"]
  else if bool_decide (type_ = "tool-input-available") then
    ["toolCallId"; "toolName"; "input"; "approval"]
  else if bool_decide (type_ = "tool-output-available") then
    ["toolCallId"; "toolName"; "output"]
  else if bool_decide (type_ = "tool-output-error") then ["toolCallId"; "errorText"]
  else if bool_decide (type_ = "tool-approval-request") then
    ["approvalId"; "toolCallId"]
  else if bool_decide (type_ = "data-usage") then ["data"]
  else if bool_decide (type_ ∈ ["finish"; "finish-step"]) then
    ["usage"; "finishReason"]
  else if bool_decide (type_ = "error") then ["message"; "code"]
  else [].

(** The event a record yields when it holds its type and nothing else: every
    field at the default its parser gives it. *)
Definition default_event (type_ : string) : SSEEvent :=
  match wire_kind type_ with
  | KText => EText (mkTextEvent "" None)
  | KStepStart => EStepStart
  | KToolCall =>
      EToolCall
        (mkToolCallEvent "" None
           (if bool_decide (type_ = "tool-input-start") then "started"
            else if bool_decide (type_ = "tool-input-available") then
              "input-available"
            else if bool_decide (type_ = "tool-output-available") then
              "output-available"
            else "")
           None None None)
  | KToolOutputError => EToolOutputError (mkToolOutputErrorEvent "" "Unknown error")
  | KToolApprovalRequest => EToolApprovalRequest (mkToolApprovalRequestEvent "" "")
  | KUsage => EUsage (mkUsageEvent (mkUsageInfo 0 0))
  | KFinish => EFinish (mkFinishEvent "stop" None)
  | KError => EError (mkErrorEvent "Unknown error" None)
  | KUnknown => EUnknown (mkUnknownEvent type_ {["type" := JStr type_]})
  end.

(** The classes of the exceptions the normalizer raises. *)
Definition normalizer_exceptions : list exn_class :=
  [AttributeErrorT; TypeErrorT; ValidationErrorT].

(** A line the reader passes over: one that does not start with "data: ", or
    whose payload is blank or the [DONE] marker. *)
Definition is_noise (line : string) : bool :=
  negb (startswith line "data: ")
  || String.eqb (strip (str_from 6 line)) ""
  || String.eqb (strip (str_from 6 line)) "[DONE]".

(** The answers of [json.loads] on a few documents that are JSON values but
    not objects, and on the empty object. *)
Definition scan_values (s : string) : decoded :=
  if String.eqb s "{}" then Decoded (JDict ∅)
  else if String.eqb s "5" then Decoded (JInt 5)
  else if String.eqb s "null" then Decoded JNull
  else if String.eqb s "[]" then Decoded (JList [])
  else Malformed "Expecting value" 0.

(** The reasons of the [Finish] events of a sequence, in delivery order. *)
Definition finish_reasons (events : list SSEEvent) : list string :=
  omap (λ ev, match ev with EFinish e => Some (finish_reason e) | _ => None end)
       events.

(** The ids of a list, each at its first occurrence. *)
Fixpoint first_occurrences (seen ids : list string) : list string :=
  match ids with
  | [] => []
  | i :: rest =>
      if decide (i ∈ seen) then first_occurrences seen rest
      else i :: first_occurrences (i :: seen) rest
  end.

(** The ids of the [ToolCall] events of a sequence, in delivery order. *)
Definition tool_call_ids (events : list SSEEvent) : list string :=
  tool_call_id <$> tool_call_events events.

(** No [ToolCall] event of the sequence is about [id]. *)
Definition silent_about (id : string) (events : list SSEEvent) : Prop :=
  Forall (λ ev, ∀ e, ev = EToolCall e → tool_call_id e ≠ id) events.

(** Two events write the same part of the accumulator in a way that depends
    on their order: two texts (the buffer), two [ToolCall] events (the entry
    of an id, and the order in which the dict lists its ids), two [Finish]
    events (the reason). *)
Definition interferes (ev1 ev2 : SSEEvent) : bool :=
  match ev1, ev2 with
  | EText _, EText _ => true
  | EToolCall _, EToolCall _ => true
  | EFinish _, EFinish _ => true
  | _, _ => false
  end.

(** An integer literal of [n] digits. *)
Definition digits (n : nat) : string := string_of_list_ascii (repeat "1"%char n).

(** The answers of [json.loads] where those of [scan_values] are not enough:
    an integer literal of 4301 digits, one more than [int] converts by
    default, makes it raise [ValueError]. *)
Definition scan_limits (s : string) : decoded :=
  if String.eqb s (digits 4301) then
    Refused "ValueError"
      ("Exceeds the limit (4300 digits) for integer string conversion: "
       +:+ "value has 4301 digits; "
       +:+ "use sys.set_int_max_str_digits() to increase the limit")
  else scan_values s.

(* ===================================================================== *)
(** * Properties                                                          *)
(* ===================================================================== *)

(** ** What a sequence of events contains *)

Lemma omap_cons {A B} (f : A → option B) (x : A) (l : list A) :
  omap f (x :: l) = match f x with Some y => y :: omap f l | None => omap f l end.
Proof. reflexivity. Qed.

(** ** The accumulator, event by event *)

Lemma process_events_app self l1 l2 :
  SSEStreamParser.process_events self (l1 ++ l2)
  = SSEStreamParser.process_events (SSEStreamParser.process_events self l1) l2.
Proof. unfold SSEStreamParser.process_events. apply fold_left_app. Qed.

Lemma process_events_snoc self l ev :
  SSEStreamParser.process_events self (l ++ [ev])
  = SSEStreamParser.process_event (SSEStreamParser.process_events self l) ev.
Proof. rewrite process_events_app. reflexivity. Qed.

Lemma process_events_cons self ev l :
  SSEStreamParser.process_events self (ev :: l)
  = SSEStreamParser.process_events (SSEStreamParser.process_event self ev) l.
Proof. reflexivity. Qed.

Lemma string_app_cons ch (a b : string) : String ch a +:+ b = String ch (a +:+ b).
Proof. reflexivity. Qed.

Lemma string_app_assoc (a b c : string) : (a +:+ b) +:+ c = a +:+ (b +:+ c).
Proof.
  induction a as [|ch a IH]; [reflexivity |].
  rewrite !string_app_cons. by f_equal.
Qed.

Lemma string_app_nil_r (a : string) : a +:+ "" = a.
Proof.
  induction a as [|ch a IH]; [reflexivity |].
  rewrite string_app_cons. by f_equal.
Qed.

Lemma str_join_empty_cons x xs : str_join "" (x :: xs) = x +:+ str_join "" xs.
Proof.
  unfold str_join. destruct xs as [|y ys]; simpl.
  - symmetry. apply string_app_nil_r.
  - reflexivity.
Qed.

Lemma str_join_empty_app l1 l2 :
  str_join "" (l1 ++ l2) = str_join "" l1 +:+ str_join "" l2.
Proof.
  induction l1 as [|x l1 IH].
  - reflexivity.
  - change ((x :: l1) ++ l2) with (x :: (l1 ++ l2)).
    rewrite !str_join_empty_cons, IH, string_app_assoc. reflexivity.
Qed.

(** The text buffer grows by exactly the fragments of the [Text] events. *)
Lemma accumulated_text_process_events self events :
  SSEStreamParser._accumulated_text (SSEStreamParser.process_events self events)
  = SSEStreamParser._accumulated_text self ++ text_fragments events.
Proof.
  revert self. induction events as [|ev events IH]; intros self.
  - simpl. by rewrite app_nil_r.
  - rewrite process_events_cons, IH. unfold text_fragments.
    destruct ev as [e| |e|e|e|e|e|e|e]; simpl; try reflexivity.
    + by rewrite <- app_assoc.
    + by destruct (fe_usage e).
Qed.

(** The map holds, for each id, the latest [ToolCall] event of the sequence,
    and what it held before for the ids the sequence does not mention. *)
Lemma latest_tool_call_snoc id events ev :
  latest_tool_call id (events ++ [ev])
  = match ev with
    | EToolCall e => if decide (tool_call_id e = id) then Some e
                     else latest_tool_call id events
    | _ => latest_tool_call id events
    end.
Proof.
  unfold latest_tool_call, tool_call_events. rewrite omap_app. simpl.
  destruct ev as [e| |e|e|e|e|e|e|e]; simpl; rewrite ?app_nil_r; try reflexivity.
  rewrite filter_app, filter_cons, filter_nil.
  case_decide; [by rewrite last_snoc | by rewrite app_nil_r].
Qed.

Lemma tool_calls_process_events self events id :
  SSEStreamParser._tool_calls (SSEStreamParser.process_events self events) !! id
  = match latest_tool_call id events with
    | Some e => Some e
    | None => SSEStreamParser._tool_calls self !! id
    end.
Proof.
  induction events as [|ev events IH] using rev_ind.
  - reflexivity.
  - rewrite process_events_snoc, latest_tool_call_snoc.
    destruct ev as [e| |e|e|e|e|e|e|e]; simpl; try exact IH.
    + rewrite lookup_insert. case_decide; [reflexivity | exact IH].
    + destruct (fe_usage e); exact IH.
Qed.

Lemma latest_tool_call_id id events e :
  latest_tool_call id events = Some e → tool_call_id e = id.
Proof.
  unfold latest_tool_call. intros H.
  apply last_Some_elem_of in H. by apply list_elem_of_filter in H as [? _].
Qed.

Lemma usage_records_cons ev events :
  usage_records (ev :: events)
  = match ev with
    | EUsage e => ue_usage e :: usage_records events
    | EFinish e =>
        match fe_usage e with
        | Some u => u :: usage_records events
        | None => usage_records events
        end
    | _ => usage_records events
    end.
Proof. destruct ev; reflexivity. Qed.

(** The counters grow by exactly the usage records of the sequence. *)
Lemma tokens_process_events self events :
  SSEStreamParser._prompt_tokens (SSEStreamParser.process_events self events)
  = (SSEStreamParser._prompt_tokens self
     + sum_N (map prompt_tokens (usage_records events)))%N
  ∧ SSEStreamParser._completion_tokens (SSEStreamParser.process_events self events)
  = (SSEStreamParser._completion_tokens self
     + sum_N (map completion_tokens (usage_records events)))%N.
Proof.
  revert self. induction events as [|ev events IH]; intros self.
  - simpl. split; lia.
  - rewrite process_events_cons.
    destruct (IH (SSEStreamParser.process_event self ev)) as [IHp IHc].
    rewrite IHp, IHc. clear IH IHp IHc. rewrite usage_records_cons.
    destruct ev as [e| |e|e|e|e|e|e|e]; simpl; try (split; reflexivity).
    + split; lia.
    + destruct (fe_usage e); simpl; split; lia.
Qed.

(** One event never lowers a counter, never removes an id from the map and
    never removes a fragment. *)
Lemma process_event_monotone self ev :
  let self' := SSEStreamParser.process_event self ev in
  (SSEStreamParser._prompt_tokens self <= SSEStreamParser._prompt_tokens self')%N
  ∧ (SSEStreamParser._completion_tokens self
     <= SSEStreamParser._completion_tokens self')%N
  ∧ dom (SSEStreamParser._tool_calls self) ⊆ dom (SSEStreamParser._tool_calls self')
  ∧ SSEStreamParser._accumulated_text self
    `prefix_of` SSEStreamParser._accumulated_text self'.
Proof.
  destruct ev as [e| |e|e|e|e|e|e|e]; simpl; try destruct (fe_usage e); simpl;
    (split_and!;
     [ lia | lia | set_solver
     | first [reflexivity | by apply prefix_app_r] ]).
Qed.

(** [finished] is set by a [Finish] event and cleared by no event. *)
Lemma finished_process_event self ev :
  SSEStreamParser._finished self = true →
  SSEStreamParser._finished (SSEStreamParser.process_event self ev) = true.
Proof.
  intros H. destruct ev as [e| |e|e|e|e|e|e|e]; simpl; try exact H.
  by destruct (fe_usage e).
Qed.

Lemma finished_process_events self events :
  SSEStreamParser._finished self = true →
  SSEStreamParser._finished (SSEStreamParser.process_events self events) = true.
Proof.
  revert self. induction events as [|ev events IH]; intros self H; [exact H |].
  rewrite process_events_cons. apply IH. by apply finished_process_event.
Qed.

(** ** The normalizer, type by type *)

(** What the validation of an attribute accepts. *)
Lemma as_str_Ok model field v s : as_str model field v = Ok s → v = JStr s.
Proof. destruct v; simpl; intros H; try discriminate H. by injection H as ->. Qed.

Lemma as_opt_str_Ok model field v o :
  as_opt_str model field v = Ok o →
  (v = JNull ∧ o = None) ∨ (∃ s, v = JStr s ∧ o = Some s).
Proof.
  destruct v; simpl; intros H; try discriminate H; injection H as <-; eauto.
Qed.

Lemma as_count_Ok model field v n :
  as_count model field v = Ok n → ∃ z, v = JInt z ∧ (0 <= z)%Z ∧ n = Z.to_N z.
Proof.
  destruct v as [| |z| | | |]; simpl; intros H; try discriminate H.
  destruct (Z.leb_spec 0 z); [| discriminate H].
  injection H as <-. eauto.
Qed.

(** Unfold the monad of fallible calls. *)
Ltac unfold_result :=
  unfold mbind, mret, result_bind, result_ret in *.

(** Case analysis on everything a fallible computation that succeeded had to
    examine. *)
Ltac result_inv H :=
  unfold_result; simpl in H;
  repeat match type of H with
         | context [match ?x with _ => _ end] => destruct x eqn:?; simpl in H
         end;
  try discriminate H.

(** The entries of the dispatch table. *)
Lemma EVENT_PARSERS_entry s p :
  EVENT_PARSERS !! s = Some p →
  (s, p) ∈ [ ("text", _parse_text_event);
             ("text-delta", _parse_text_delta_event);
             ("step-start", _parse_step_start_event);
             ("start-step", _parse_step_start_event);
             ("tool-call", _parse_tool_call_event);
             ("tool-input-start", _parse_tool_input_start_event);
             ("tool-input-available", _parse_tool_input_available_event);
             ("tool-output-available", _parse_tool_output_available_event);
             ("tool-output-error", _parse_tool_output_error_event);
             ("tool-approval-request", _parse_tool_approval_request_event);
             ("data-usage", _parse_usage_event);
             ("finish", _parse_finish_event);
             ("finish-step", _parse_finish_event);
             ("error", _parse_error_event) ].
Proof. unfold EVENT_PARSERS. apply elem_of_list_to_map_2. Qed.

(** Take the table entry in [H] apart, one goal per entry. *)
Ltac table_cases H :=
  apply EVENT_PARSERS_entry in H;
  repeat (apply elem_of_cons in H as [H | H]; [injection H as -> -> |]);
  [.. | by apply elem_of_nil in H].

Lemma wire_kind_unknown s : EVENT_PARSERS !! s = None → wire_kind s = KUnknown.
Proof.
  intros H. unfold EVENT_PARSERS in H. apply not_elem_of_list_to_map_2 in H.
  simpl in H. repeat (apply not_elem_of_cons in H as [? H]). unfold wire_kind.
  repeat (case_bool_decide as Hs;
          [ exfalso;
            repeat (apply elem_of_cons in Hs as [Hs | Hs]; [congruence |]);
            first [congruence | by apply elem_of_nil in Hs]
          | clear Hs ]).
  reflexivity.
Qed.

(** Every parser of the table produces the event case of its wire type. *)
Lemma parser_kind s p data ev :
  EVENT_PARSERS !! s = Some p → p data = Ok ev → kind_of ev = wire_kind s.
Proof.
  intros Hs H. table_cases Hs.
  all: unfold _parse_text_event, _parse_text_delta_event, _parse_step_start_event,
         _parse_tool_call_event, _parse_tool_input_start_event,
         _parse_tool_input_available_event, _parse_tool_output_available_event,
         _parse_tool_output_error_event, _parse_tool_approval_request_event,
         _parse_usage_event, _parse_finish_event, _parse_error_event,
         _parse_approval,
         new_TextEvent, new_StepStartEvent, new_ToolCallEvent,
         new_ToolOutputErrorEvent, new_ToolApprovalRequestEvent, new_UsageEvent,
         new_FinishEvent, new_ErrorEvent, new_ToolApproval, new_UsageInfo in H.
  all: result_inv H.
  all: by injection H as <-.
Qed.

(** What a successful normalization went through: the record is a dict, its
    type is a string, and either the table's parser for that type produced
    the event or the type has no entry and the event is [Unknown]. *)
Lemma parse_sse_event_ok data ev :
  parse_sse_event data = Ok ev →
  ∃ d s, data = JDict d ∧ dict_get d "type" (JStr "") = JStr s ∧
    match EVENT_PARSERS !! s with
    | Some parse => parse data = Ok ev
    | None => ev = EUnknown (mkUnknownEvent s d)
    end.
Proof.
  unfold parse_sse_event. intros H.
  destruct data as [| | | | |l|d]; try discriminate H.
  exists d. unfold_result. simpl in H.
  destruct (dict_get d "type" (JStr "")) as [| | | |s| |] eqn:Ht;
    simpl in H; try discriminate H.
  exists s. split_and!; [reflexivity | reflexivity |].
  destruct (EVENT_PARSERS !! s); [exact H |].
  by injection H as <-.
Qed.

Lemma parse_sse_event_kind data ev :
  parse_sse_event data = Ok ev →
  ∃ d s, data = JDict d ∧ dict_get d "type" (JStr "") = JStr s ∧
         kind_of ev = wire_kind s.
Proof.
  intros H. apply parse_sse_event_ok in H as (d & s & -> & Ht & H).
  exists d, s. split_and!; [reflexivity | exact Ht |].
  destruct (EVENT_PARSERS !! s) eqn:Hs.
  - by eapply parser_kind.
  - subst ev. symmetry. by apply wire_kind_unknown.
Qed.

Lemma parse_sse_event_fragment data ev :
  parse_sse_event data = Ok ev → event_fragment ev = wire_fragment data.
Proof.
  intros H. apply parse_sse_event_ok in H as (d & s & -> & Ht & H).
  unfold wire_fragment. rewrite Ht.
  destruct (EVENT_PARSERS !! s) eqn:Hs.
  - pose proof (parser_kind _ _ _ _ Hs H) as Hk.
    table_cases Hs; simpl.
    1, 2: unfold _parse_text_event, _parse_text_delta_event, new_TextEvent in H;
          result_inv H; injection H as <-;
          match goal with
          | Hs : as_str _ _ _ = Ok _ |- _ => apply as_str_Ok in Hs; by rewrite Hs
          end.
    all: destruct ev; vm_compute in Hk; try discriminate Hk; reflexivity.
  - subst ev. simpl.
    destruct (String.eqb_spec s "text") as [-> | _]; [discriminate Hs |].
    destruct (String.eqb_spec s "text-delta") as [-> | _]; [discriminate Hs |].
    reflexivity.
Qed.

(* ===================================================================== *)
(** ** Text accumulation                                                  *)
(* ===================================================================== *)

(** C7.  When a sequence of raw records normalizes to a sequence of events,
    the accumulator's text after processing the events is the text it had
    followed by the concatenation, in delivery order, of the fragments of
    the records: the "text" field of each record of type "text" and the
    "delta" field of each record of type "text-delta".  The buffer gains
    exactly these fragments, each once, and they are the fragments of the
    [Text] events. *)
Theorem text_accumulation (records : list json) (events : list SSEEvent)
    (self : SSEStreamParser.t) :
  Forall2 (λ data ev, parse_sse_event data = Ok ev) records events →
  text_fragments events = omap wire_fragment records
  ∧ SSEStreamParser._accumulated_text (SSEStreamParser.process_events self events)
    = SSEStreamParser._accumulated_text self ++ omap wire_fragment records
  ∧ SSEStreamParser.text (SSEStreamParser.process_events self events)
    = SSEStreamParser.text self +:+ str_join "" (omap wire_fragment records)
  ∧ SSEStreamParser.text
      (SSEStreamParser.process_events SSEStreamParser.init events)
    = str_join "" (text_fragments events).
Proof.
  intros H.
  assert (Hf : text_fragments events = omap wire_fragment records).
  { induction H as [|data ev records events Hev _ IH]; [reflexivity |].
    unfold text_fragments in *.
    rewrite !omap_cons, (parse_sse_event_fragment _ _ Hev), IH. reflexivity. }
  unfold SSEStreamParser.text.
  rewrite !accumulated_text_process_events, str_join_empty_app, Hf.
  split_and!; reflexivity.
Qed.

(** The scenario of the specification: "Hello ", "world!", finish. *)
Lemma text_accumulation_witness :
  Forall2 (λ data ev, parse_sse_event data = Ok ev)
    [record_text "Hello "; record_text_delta "world!"; record_finish "stop"]
    [EText (mkTextEvent "Hello " None); EText (mkTextEvent "world!" None);
     EFinish (mkFinishEvent "stop" None)]
  ∧ SSEStreamParser.text
      (SSEStreamParser.process_events SSEStreamParser.init
         [EText (mkTextEvent "Hello " None); EText (mkTextEvent "world!" None);
          EFinish (mkFinishEvent "stop" None)])
    = "Hello world!".
Proof.
  assert (H : Forall2 (λ data ev, parse_sse_event data = Ok ev)
    [record_text "Hello "; record_text_delta "world!"; record_finish "stop"]
    [EText (mkTextEvent "Hello " None); EText (mkTextEvent "world!" None);
     EFinish (mkFinishEvent "stop" None)]).
  { repeat constructor. }
  split; [exact H |].
  exact (proj2 (proj2 (proj2
           (text_accumulation _ _ SSEStreamParser.init H)))).
Defined.

(* ===================================================================== *)
(** ** Token usage                                                        *)
(* ===================================================================== *)

(** C8.  The token counters after processing a sequence are the counters
    before plus the sum over every [Usage] event and every [Finish] event
    with an embedded usage record; no event lowers a counter; and
    Usage{10,5}, Usage{3,2}, Finish embedding {1,1} give 14 and 8. *)
Theorem usage_totals_additive (self : SSEStreamParser.t) (events : list SSEEvent) :
  SSEStreamParser.prompt_tokens (SSEStreamParser.process_events self events)
  = (SSEStreamParser.prompt_tokens self
     + sum_N (map prompt_tokens (usage_records events)))%N
  ∧ SSEStreamParser.completion_tokens (SSEStreamParser.process_events self events)
  = (SSEStreamParser.completion_tokens self
     + sum_N (map completion_tokens (usage_records events)))%N
  ∧ (∀ ev,
       (SSEStreamParser.prompt_tokens self
        <= SSEStreamParser.prompt_tokens (SSEStreamParser.process_event self ev))%N
       ∧ (SSEStreamParser.completion_tokens self
          <= SSEStreamParser.completion_tokens
               (SSEStreamParser.process_event self ev))%N)
  ∧ (∀ reason,
       let final :=
         SSEStreamParser.process_events SSEStreamParser.init
           [EUsage (mkUsageEvent (mkUsageInfo 10 5));
            EUsage (mkUsageEvent (mkUsageInfo 3 2));
            EFinish (mkFinishEvent reason (Some (mkUsageInfo 1 1)))] in
       SSEStreamParser.prompt_tokens final = 14%N
       ∧ SSEStreamParser.completion_tokens final = 8%N
       ∧ SSEStreamParser.total_tokens final = 22%N).
Proof.
  unfold SSEStreamParser.prompt_tokens, SSEStreamParser.completion_tokens.
  destruct (tokens_process_events self events) as [Hp Hc].
  split_and!; [exact Hp | exact Hc | |].
  - intros ev. destruct (process_event_monotone self ev) as (? & ? & _). by split.
  - intros reason. split_and!; reflexivity.
Qed.

(* ===================================================================== *)
(** ** After [finished]                                                   *)
(* ===================================================================== *)

(** C9 as stated fails: a [Text] event that arrives after the finish is
    appended as usual. *)
Lemma finished_parser_not_frozen :
  ¬ frozen_once_finished finished_parser (EText (mkTextEvent "late" None)).
Proof. intros H. destruct (H eq_refl) as [Ht _]. discriminate Ht. Qed.

(** C9, amended.  [process_event] does not look at [finished]: what it does
    to the other fields is the same whether the flag is set or not, so a
    finished state is not frozen.  What holds of a finished state is that
    [finished] stays true whatever is processed next, that the events the
    accumulator has no branch for (StepStart, ToolOutputError,
    ToolApprovalRequest, Error, Unknown) leave every field unchanged, and
    that [reset] puts every field back to its initial value. *)
Theorem finished_until_reset (self : SSEStreamParser.t) (events : list SSEEvent) :
  SSEStreamParser.finished self = true →
  SSEStreamParser.finished (SSEStreamParser.process_events self events) = true
  ∧ (forallb ignored_by_accumulator events = true →
     SSEStreamParser.process_events self events = self)
  ∧ (∀ ev b,
       same_but_finished
         (SSEStreamParser.process_event (set_finished b self) ev)
         (SSEStreamParser.process_event self ev))
  ∧ SSEStreamParser.reset (SSEStreamParser.process_events self events)
    = SSEStreamParser.init
  ∧ SSEStreamParser.finished
      (SSEStreamParser.reset (SSEStreamParser.process_events self events))
    = false.
Proof.
  unfold SSEStreamParser.finished. intros Hfin.
  split_and!; [by apply finished_process_events | | | reflexivity | reflexivity].
  - clear Hfin. revert self.
    induction events as [|ev events IH]; intros self Hign; [reflexivity |].
    simpl in Hign. apply andb_prop in Hign as [Hev Hrest].
    rewrite process_events_cons.
    replace (SSEStreamParser.process_event self ev) with self; [by apply IH |].
    destruct ev; try discriminate Hev; reflexivity.
  - intros ev b. unfold same_but_finished.
    destruct ev as [e| |e|e|e|e|e|e|e]; simpl; try destruct (fe_usage e);
      split_and!; reflexivity.
Qed.

(** A finished accumulator stays finished through a late text. *)
Lemma finished_until_reset_witness :
  SSEStreamParser.finished finished_parser = true
  ∧ SSEStreamParser.finished
      (SSEStreamParser.process_events finished_parser
         [EText (mkTextEvent "late" None); EStepStart]) = true.
Proof.
  split; [reflexivity |].
  exact (proj1 (finished_until_reset finished_parser
                  [EText (mkTextEvent "late" None); EStepStart] eq_refl)).
Defined.

(* ===================================================================== *)
(** ** The tool-call map and the pending calls                            *)
(* ===================================================================== *)

Lemma latest_tool_call_app id l1 l2 :
  latest_tool_call id (l1 ++ l2)
  = match latest_tool_call id l2 with
    | Some e => Some e
    | None => latest_tool_call id l1
    end.
Proof.
  unfold latest_tool_call, tool_call_events.
  rewrite omap_app, filter_app, last_app. reflexivity.
Qed.

Lemma latest_tool_call_cons id ev l :
  latest_tool_call id (ev :: l)
  = match latest_tool_call id l with
    | Some e => Some e
    | None => latest_tool_call id [ev]
    end.
Proof. apply (latest_tool_call_app id [ev] l). Qed.

Lemma latest_tool_call_singleton id e :
  tool_call_id e = id → latest_tool_call id [EToolCall e] = Some e.
Proof.
  intros H. unfold latest_tool_call, tool_call_events.
  rewrite omap_cons. simpl. by rewrite filter_cons_True.
Qed.

(** *** The insertion-ordered dict of the tracker *)

Lemma odict_get_set {V} (d : list (string * V)) k v k' :
  odict_get (odict_set d k v) k' = if decide (k = k') then Some v else odict_get d k'.
Proof.
  induction d as [|[k0 v0] d IH]; simpl.
  - destruct (String.eqb_spec k k'); case_decide; congruence.
  - destruct (String.eqb_spec k0 k) as [-> | Hne]; simpl.
    + destruct (String.eqb_spec k k'); case_decide; congruence.
    + destruct (String.eqb_spec k0 k') as [-> | Hne']; [| exact IH].
      case_decide; congruence.
Qed.

Lemma odict_set_keys {V} (d : list (string * V)) k v :
  (odict_set d k v).*1 = if decide (k ∈ d.*1) then d.*1 else d.*1 ++ [k].
Proof.
  induction d as [|[k0 v0] d IH].
  - destruct (decide _) as [H | _]; [by apply elem_of_nil in H | reflexivity].
  - cbn [odict_set]. destruct (String.eqb_spec k0 k) as [-> | Hne].
    + rewrite decide_True; [reflexivity | by left].
    + rewrite fmap_cons, IH. cbn [fst].
      destruct (decide (k ∈ d.*1)) as [Hin | Hnin].
      * rewrite decide_True; [reflexivity | by right].
      * rewrite decide_False; [reflexivity |].
        rewrite fmap_cons. cbn [fst].
        intros [? | ?]%elem_of_cons; [congruence | contradiction].
Qed.

Lemma odict_set_elem_of {V} (d : list (string * V)) k v kv :
  kv ∈ odict_set d k v → kv = (k, v) ∨ kv ∈ d.
Proof.
  induction d as [|[k0 v0] d IH]; simpl.
  - intros ->%list_elem_of_singleton. by left.
  - destruct (String.eqb_spec k0 k) as [-> | Hne].
    + intros [-> | H]%elem_of_cons; [by left | right; by right].
    + intros [-> | H]%elem_of_cons; [right; by left |].
      destruct (IH H); [by left | right; by right].
Qed.

Lemma odict_wf_set d e : odict_wf d → odict_wf (odict_set d (tool_call_id e) e).
Proof.
  intros [Hnd Hid]. split.
  - rewrite odict_set_keys. case_decide as Hin; [exact Hnd |].
    apply NoDup_app. split_and!; [exact Hnd | | apply NoDup_singleton].
    intros x Hx ->%list_elem_of_singleton. contradiction.
  - apply Forall_forall. intros kv [-> | Hkv]%odict_set_elem_of; [reflexivity |].
    rewrite Forall_forall in Hid. by apply Hid.
Qed.

Lemma odict_get_elem_of {V} (d : list (string * V)) k v :
  NoDup d.*1 → odict_get d k = Some v ↔ (k, v) ∈ d.
Proof.
  induction d as [|[k0 v0] d IH]; simpl; intros Hnd.
  - split; [discriminate | by intros ?%elem_of_nil].
  - apply NoDup_cons in Hnd as [Hk0 Hnd].
    destruct (String.eqb_spec k0 k) as [-> | Hne].
    + split.
      * intros [= ->]. by left.
      * intros [[= ->] | Hin]%elem_of_cons; [reflexivity |].
        exfalso. apply Hk0. apply list_elem_of_fmap. by exists (k, v).
    + rewrite (IH Hnd). split; [by right |].
      intros [[= -> ->] | Hin]%elem_of_cons; [congruence | exact Hin].
Qed.

Lemma upsert_calls_get events ts id :
  odict_get (upsert_calls events ts) id
  = match latest_tool_call id events with
    | Some e => Some e
    | None => odict_get ts id
    end.
Proof.
  induction events as [|ev events IH] using rev_ind; [reflexivity |].
  unfold upsert_calls in *. rewrite fold_left_app, latest_tool_call_snoc. simpl.
  destruct ev; try exact IH.
  rewrite odict_get_set. case_decide; [reflexivity | exact IH].
Qed.

Lemma upsert_calls_wf events ts : odict_wf ts → odict_wf (upsert_calls events ts).
Proof.
  revert ts. induction events as [|ev events IH]; intros ts Hwf; [exact Hwf |].
  unfold upsert_calls in *. simpl. apply IH.
  destruct ev; try exact Hwf. by apply odict_wf_set.
Qed.

(** What the loop of [stream_and_collect] has collected when it completes. *)
Lemma collect_event_Ok c ev c' :
  collect_event c ev = Ok c' →
  text_parts c' = text_parts c ++ text_fragments [ev]
  ∧ all_events c' = all_events c ++ [ev]
  ∧ tool_states c' = upsert_calls [ev] (tool_states c).
Proof.
  unfold collect_event. intros H.
  destruct ev as [e| |e|e|e|e|e|e|u]; simpl in H;
    try (injection H as <-; simpl; rewrite ?app_nil_r; split_and!; reflexivity).
  destruct (String.eqb (ue_type u) "text"); [discriminate H |].
  destruct (String.eqb (ue_type u) "tool-call");
    injection H as <-; simpl; rewrite app_nil_r; split_and!; reflexivity.
Qed.

Lemma collect_events_Ok events c c' :
  collect_events c events = Ok c' →
  text_parts c' = text_parts c ++ text_fragments events
  ∧ all_events c' = all_events c ++ events
  ∧ tool_states c' = upsert_calls events (tool_states c).
Proof.
  revert c. induction events as [|ev events IH]; intros c H.
  - injection H as <-. rewrite !app_nil_r. split_and!; reflexivity.
  - simpl in H. unfold_result.
    destruct (collect_event c ev) as [c1|] eqn:H1; [| discriminate H].
    apply collect_event_Ok in H1 as (Ht & Ha & Hs).
    apply IH in H as (-> & -> & ->). rewrite Ht, Ha, Hs.
    change (ev :: events) with ([ev] ++ events).
    unfold text_fragments. rewrite omap_app, <- !app_assoc.
    split_and!; reflexivity.
Qed.

(** The normalizer answers [Unknown] only for a type without table entry. *)
Lemma normalized_unknown u :
  normalized (EUnknown u) → EVENT_PARSERS !! ue_type u = None.
Proof.
  intros [data H]. apply parse_sse_event_ok in H as (d & s & -> & Ht & H).
  destruct (EVENT_PARSERS !! s) eqn:Hs.
  - pose proof (parser_kind _ _ _ _ Hs H) as Hk.
    table_cases Hs; vm_compute in Hk; discriminate Hk.
  - injection H as ->. exact Hs.
Qed.

(** On normalized events the loop of [stream_and_collect] does not raise. *)
Lemma collect_events_total events c :
  Forall normalized events → ∃ c', collect_events c events = Ok c'.
Proof.
  intros H. revert c. induction H as [|ev events Hev _ IH]; intros c.
  - by exists c.
  - simpl. unfold_result.
    assert (∃ c1, collect_event c ev = Ok c1) as [c1 ->]; [| apply IH].
    unfold collect_event. unfold_result.
    destruct ev as [e| |e|e|e|e|e|e|u]; simpl; eauto.
    destruct (String.eqb_spec (ue_type u) "text") as [Hu | _];
      [| destruct (String.eqb (ue_type u) "tool-call"); eauto].
    apply normalized_unknown in Hev. rewrite Hu in Hev. discriminate Hev.
Qed.

Lemma pending_tools_spec ts e :
  odict_wf ts →
  e ∈ pending_tools ts
  ↔ odict_get ts (tool_call_id e) = Some e ∧ state e = "input-available".
Proof.
  intros [Hnd Hid]. unfold pending_tools.
  rewrite list_elem_of_fmap, (odict_get_elem_of _ _ _ Hnd).
  rewrite Forall_forall in Hid. split.
  - intros ([k e'] & -> & [Hst Hin]%list_elem_of_filter). simpl in *.
    apply String.eqb_eq in Hst. split; [| exact Hst].
    pose proof (Hid _ Hin) as Hk. simpl in Hk. by subst k.
  - intros [Hin Hst]. exists (tool_call_id e, e). split; [reflexivity |].
    apply list_elem_of_filter. split; [| exact Hin].
    simpl. by apply String.eqb_eq.
Qed.

Lemma is_pending_spec calls id :
  is_pending calls id = true
  ↔ ∃ e, calls !! id = Some e ∧ state e = "input-available".
Proof.
  unfold is_pending. destruct (calls !! id) as [e|].
  - rewrite String.eqb_eq. split; [eauto |]. by intros (? & [= <-] & ?).
  - split; [discriminate | by intros (? & [=] & _)].
Qed.

(** From the initial state the map is exactly the latest events. *)
Lemma tool_calls_latest events id :
  SSEStreamParser.tool_calls
    (SSEStreamParser.process_events SSEStreamParser.init events) !! id
  = latest_tool_call id events.
Proof.
  unfold SSEStreamParser.tool_calls.
  rewrite tool_calls_process_events. simpl. rewrite lookup_empty.
  by destruct (latest_tool_call id events).
Qed.

Lemma is_pending_latest events id :
  is_pending (SSEStreamParser.tool_calls
                (SSEStreamParser.process_events SSEStreamParser.init events)) id
  = true
  ↔ ∃ e, latest_tool_call id events = Some e ∧ state e = "input-available".
Proof. rewrite is_pending_spec, tool_calls_latest. reflexivity. Qed.

(** C1.  For every event sequence and every id: the accumulator's map holds
    under the id the most recently processed [ToolCall] event of that id
    (last write wins), and the id is pending exactly when that event is in
    phase "input-available".  The tracker of the example, whenever it
    returns, has the same map and lists as pending exactly the latest events
    in phase "input-available"; it returns on every sequence of normalized
    events.  In particular an id whose events are started, input-available
    and then nothing is pending, and a later output-available for the id
    removes it from the pending set. *)
Theorem pending_tool_calls (events : list SSEEvent) (id : string) :
  let calls :=
    SSEStreamParser.tool_calls
      (SSEStreamParser.process_events SSEStreamParser.init events) in
  calls !! id = latest_tool_call id events
  ∧ (is_pending calls id = true
     ↔ ∃ e, latest_tool_call id events = Some e ∧ state e = "input-available")
  ∧ (∀ texts all ts pending,
       stream_and_collect (mkGenerator events None) = Ok (texts, all, ts, pending) →
       odict_get ts id = calls !! id
       ∧ (∀ e, e ∈ pending
               ↔ latest_tool_call (tool_call_id e) events = Some e
                 ∧ state e = "input-available")
       ∧ (id ∈ tool_call_id <$> pending ↔ is_pending calls id = true))
  ∧ (Forall normalized events →
     ∃ r, stream_and_collect (mkGenerator events None) = Ok r)
  ∧ (∀ pre rest rest' started available completed,
       events = pre ++ [EToolCall started; EToolCall available] ++ rest →
       tool_call_id started = id → state started = "started" →
       tool_call_id available = id → state available = "input-available" →
       tool_call_id completed = id → state completed = "output-available" →
       latest_tool_call id rest = None →
       latest_tool_call id rest' = None →
       is_pending calls id = true
       ∧ is_pending
           (SSEStreamParser.tool_calls
              (SSEStreamParser.process_events SSEStreamParser.init
                 (events ++ [EToolCall completed] ++ rest'))) id = false).
Proof.
  intros calls.
  pose proof tool_calls_latest as Hcalls.
  pose proof is_pending_latest as Hpend.
  split_and!.
  - apply Hcalls.
  - apply Hpend.
  - intros texts all ts pending H. unfold stream_and_collect in H. unfold_result.
    simpl in H.
    destruct (collect_events (mkCollected [] [] []) events) as [c|] eqn:Hc;
      [| discriminate H].
    simpl in H. injection H as <- <- <- <-.
    apply collect_events_Ok in Hc as (_ & _ & Hts). simpl in Hts.
    assert (Hwf : odict_wf (tool_states c)).
    { rewrite Hts. apply upsert_calls_wf. split; [apply NoDup_nil_2 | constructor]. }
    assert (Hget : ∀ i, odict_get (tool_states c) i = latest_tool_call i events).
    { intros i. rewrite Hts, upsert_calls_get. simpl.
      by destruct (latest_tool_call i events). }
    assert (He : ∀ e, e ∈ pending_tools (tool_states c)
                      ↔ latest_tool_call (tool_call_id e) events = Some e
                        ∧ state e = "input-available").
    { intros e. by rewrite (pending_tools_spec _ _ Hwf), Hget. }
    split_and!.
    + unfold calls. by rewrite Hget, Hcalls.
    + exact He.
    + unfold calls. rewrite Hpend, list_elem_of_fmap. split.
      * intros (e & -> & Hin). exists e. by apply He.
      * intros (e & Hl & Hst). exists e.
        pose proof (latest_tool_call_id _ _ _ Hl) as Hid. split; [done |].
        apply He. by rewrite Hid.
  - intros Hn. unfold stream_and_collect. unfold_result. simpl.
    destruct (collect_events_total events (mkCollected [] [] []) Hn) as [c ->].
    eauto.
  - intros pre rest rest' e1 e2 e3 -> Hi1 Hs1 Hi2 Hs2 Hi3 Hs3 Hrest Hrest'.
    unfold calls. split.
    + apply Hpend. exists e2. split; [| exact Hs2].
      rewrite !latest_tool_call_app, Hrest, latest_tool_call_cons.
      by rewrite (latest_tool_call_singleton _ _ Hi2).
    + apply not_true_is_false. rewrite Hpend. intros (e & Hl & Hst).
      rewrite !latest_tool_call_app, Hrest' in Hl.
      rewrite (latest_tool_call_singleton _ _ Hi3) in Hl.
      injection Hl as <-. congruence.
Qed.

(** The call t1 of create_bucket: pending after started and
    input-available, not pending after output-available. *)
Lemma pending_tool_calls_witness :
  let events := [EToolCall (tool_started "t1" "create_bucket");
                 EToolCall (tool_input_available "t1" "create_bucket")] in
  latest_tool_call "t1" [] = None
  ∧ is_pending
      (SSEStreamParser.tool_calls
         (SSEStreamParser.process_events SSEStreamParser.init events)) "t1" = true
  ∧ is_pending
      (SSEStreamParser.tool_calls
         (SSEStreamParser.process_events SSEStreamParser.init
            (events ++ [EToolCall (tool_output_available "t1" "create_bucket")] ++ [])))
      "t1" = false.
Proof.
  intros events. split; [reflexivity |].
  exact (proj2 (proj2 (proj2 (proj2 (pending_tool_calls events "t1"))))
           [] [] [] (tool_started "t1" "create_bucket")
           (tool_input_available "t1" "create_bucket")
           (tool_output_available "t1" "create_bucket")
           eq_refl eq_refl eq_refl eq_refl eq_refl eq_refl eq_refl eq_refl eq_refl).
Defined.

(* ===================================================================== *)
(** ** Out-of-order re-delivery                                           *)
(* ===================================================================== *)

(** C2 as stated fails: a re-delivered input-available overwrites the
    output-available, and the id is pending again. *)
Lemma redelivery_is_pending_again :
  ¬ completed_stays_completed
      [EToolCall (tool_output_available "t1" "create_bucket");
       EToolCall (tool_input_available "t1" "create_bucket")] "t1".
Proof.
  intros H. assert (Hfalse : true = false); [| discriminate Hfalse].
  apply H.
  exists [], [], [], (tool_output_available "t1" "create_bucket"),
         (tool_input_available "t1" "create_bucket").
  split_and!; reflexivity.
Qed.

(** C2, amended.  The map is last-write-wins and arrival order is taken as
    phase order.  While the output-available event is the most recent
    [ToolCall] event of its id, the id is not pending; when an
    input-available event of the same id arrives later and no [ToolCall]
    event of that id follows it, the id is pending again. *)
Theorem completed_then_redelivered (pre mid rest : list SSEEvent)
    (completed available : ToolCallEvent) (id : string) :
  tool_call_id completed = id → state completed = "output-available" →
  tool_call_id available = id → state available = "input-available" →
  latest_tool_call id mid = None →
  latest_tool_call id rest = None →
  is_pending
    (SSEStreamParser.tool_calls
       (SSEStreamParser.process_events SSEStreamParser.init
          (pre ++ EToolCall completed :: mid))) id = false
  ∧ is_pending
      (SSEStreamParser.tool_calls
         (SSEStreamParser.process_events SSEStreamParser.init
            (pre ++ EToolCall completed :: mid ++ EToolCall available :: rest)))
      id = true.
Proof.
  intros Hic Hsc Hia Hsa Hmid Hrest.
  split.
  - apply not_true_is_false. rewrite is_pending_latest. intros (e & Hl & Hst).
    rewrite latest_tool_call_app, latest_tool_call_cons, Hmid in Hl.
    rewrite (latest_tool_call_singleton _ _ Hic) in Hl.
    injection Hl as <-. congruence.
  - apply is_pending_latest. exists available. split; [| exact Hsa].
    rewrite latest_tool_call_app, latest_tool_call_cons, latest_tool_call_app.
    rewrite (latest_tool_call_cons id (EToolCall available) rest), Hrest.
    by rewrite (latest_tool_call_singleton _ _ Hia).
Qed.

(** The call t1, completed and then re-delivered as input-available. *)
Lemma completed_then_redelivered_witness :
  latest_tool_call "t1" [EStepStart] = None
  ∧ is_pending
      (SSEStreamParser.tool_calls
         (SSEStreamParser.process_events SSEStreamParser.init
            ([] ++ EToolCall (tool_output_available "t1" "create_bucket")
                :: [EStepStart]
                ++ EToolCall (tool_input_available "t1" "create_bucket") :: [])))
      "t1" = true.
Proof.
  split; [reflexivity |].
  exact (proj2 (completed_then_redelivered [] [EStepStart] []
                  (tool_output_available "t1" "create_bucket")
                  (tool_input_available "t1" "create_bucket") "t1"
                  eq_refl eq_refl eq_refl eq_refl eq_refl eq_refl)).
Defined.

(* ===================================================================== *)
(** ** The approval sub-record                                            *)
(* ===================================================================== *)

(** What [_parse_approval] returns on a record: an approval exactly when the
    "approval" field is a mapping that has the key "id"; its id is the
    value under that key. *)
Lemma dict_get_none_dict d key ad :
  dict_get d key JNull = JDict ad ↔ d !! key = Some (JDict ad).
Proof.
  unfold dict_get. destruct (d !! key) as [v|]; simpl.
  - split; [by intros -> | by intros [= ->]].
  - split; discriminate.
Qed.

Lemma parse_approval_Ok d r :
  _parse_approval (JDict d) = Ok r →
  match r with
  | Some a =>
      ∃ ad, d !! "approval" = Some (JDict ad)
            ∧ ad !! "id" = Some (JStr (ta_id a))
            ∧ as_opt_bool "ToolApproval" "approved" (dict_get ad "approved" JNull)
              = Ok (ta_approved a)
            ∧ as_opt_str "ToolApproval" "reason" (dict_get ad "reason" JNull)
              = Ok (ta_reason a)
  | None => ∀ ad, d !! "approval" = Some (JDict ad) → ad !! "id" = None
  end.
Proof.
  unfold _parse_approval. unfold_result. simpl.
  destruct (dict_get d "approval" JNull) as [| | | | | |ad] eqn:Hv;
    try (intros [= <-]; intros ad' Had; apply dict_get_none_dict in Had;
         congruence).
  apply dict_get_none_dict in Hv. simpl.
  unfold dict_contains, dict_item.
  destruct (ad !! "id") as [i|] eqn:Hi.
  - rewrite (bool_decide_eq_true_2 (is_Some (Some i))) by eauto.
    rewrite (bool_decide_eq_false_2 (ad = ∅)).
    2: { intros ->. rewrite lookup_empty in Hi. discriminate Hi. }
    simpl. unfold new_ToolApproval. unfold_result. intros H.
    destruct (as_str _ _ i) as [i'|] eqn:Hid; [| discriminate H].
    apply as_str_Ok in Hid as ->.
    destruct (as_opt_bool _ _ _) as [b|] eqn:Hb; [| discriminate H].
    destruct (as_opt_str _ _ _) as [re|] eqn:Hr; [| discriminate H].
    injection H as <-. exists ad. simpl. split_and!; done.
  - rewrite (bool_decide_eq_false_2 (is_Some None)) by (intros [? [=]]).
    rewrite andb_false_r. intros [= <-]. intros ad' Had.
    rewrite Hv in Had. by injection Had as <-.
Qed.

Lemma parse_approval_attached d ad i b re :
  d !! "approval" = Some (JDict ad) →
  ad !! "id" = Some (JStr i) →
  as_opt_bool "ToolApproval" "approved" (dict_get ad "approved" JNull) = Ok b →
  as_opt_str "ToolApproval" "reason" (dict_get ad "reason" JNull) = Ok re →
  _parse_approval (JDict d) = Ok (Some (mkToolApproval i b re)).
Proof.
  intros Hv Hi Hb Hr. apply dict_get_none_dict in Hv.
  unfold _parse_approval. unfold_result. simpl. rewrite Hv. simpl.
  unfold dict_contains, dict_item. rewrite Hi.
  rewrite (bool_decide_eq_true_2 (is_Some (Some (JStr i)))) by eauto.
  rewrite (bool_decide_eq_false_2 (ad = ∅)).
  2: { intros ->. rewrite lookup_empty in Hi. discriminate Hi. }
  simpl. unfold new_ToolApproval. unfold_result. simpl. by rewrite Hb, Hr.
Qed.

(** The approval a constructed [ToolCall] event carries is the one passed. *)
Lemma new_ToolCallEvent_approval i n s inp out a e :
  new_ToolCallEvent i n s inp out a = Ok (EToolCall e) → approval e = a.
Proof.
  unfold new_ToolCallEvent. intros H. result_inv H. by injection H as <-.
Qed.

(** C6 as stated fails: the empty id is attached, since the test is on the
    key, not on its value. *)
Lemma empty_approval_id_is_attached :
  ¬ approval_needs_nonempty_id record_empty_approval_id.
Proof.
  intros H.
  destruct (H (mkToolCallEvent "t1" None "input-available" None None
                 (Some (mkToolApproval "" None None)))
              (mkToolApproval "" None None) eq_refl eq_refl)
    as (d & ad & id & Hd & Happ & Hid & Hne).
  injection Hd as <-. vm_compute in Happ. injection Happ as <-.
  vm_compute in Hid. injection Hid as <-. by apply Hne.
Qed.

(** C6, amended.  The normalizer attaches an approval to a [ToolCall] event
    only when the record's "approval" field is present, is a mapping and
    contains the key "id"; the approval carries the value under that key,
    which may be the empty string.  For the types "tool-call" and
    "tool-input-available" it attaches one in every such case; in every
    other case the approval of the event is absent. *)
Theorem approval_attached (data : json) (e : ToolCallEvent) :
  parse_sse_event data = Ok (EToolCall e) →
  ∃ d type_, data = JDict d ∧ dict_get d "type" (JStr "") = JStr type_ ∧
    match approval e with
    | Some a =>
        type_ ∈ ["tool-call"; "tool-input-available"]
        ∧ ∃ ad, d !! "approval" = Some (JDict ad)
                ∧ ad !! "id" = Some (JStr (ta_id a))
    | None =>
        type_ ∈ ["tool-input-start"; "tool-output-available"]
        ∨ ∀ ad, d !! "approval" = Some (JDict ad) → ad !! "id" = None
    end.
Proof.
  intros H. apply parse_sse_event_ok in H as (d & s & -> & Ht & H).
  exists d, s. split_and!; [reflexivity | exact Ht |].
  destruct (EVENT_PARSERS !! s) eqn:Hs; [| discriminate H].
  pose proof (parser_kind _ _ _ _ Hs H) as Hk.
  table_cases Hs; try (vm_compute in Hk; discriminate Hk); clear Hk.
  - unfold _parse_tool_call_event in H. unfold_result. simpl in H.
    destruct (_parse_approval (JDict d)) as [r|] eqn:Ha; [| discriminate H].
    apply new_ToolCallEvent_approval in H as ->.
    apply parse_approval_Ok in Ha. destruct r as [a|].
    + destruct Ha as (ad & ? & ? & _). split; [by repeat constructor | eauto].
    + by right.
  - unfold _parse_tool_input_start_event in H. unfold_result. simpl in H.
    apply new_ToolCallEvent_approval in H as ->. left. by repeat constructor.
  - unfold _parse_tool_input_available_event in H. unfold_result. simpl in H.
    destruct (_parse_approval (JDict d)) as [r|] eqn:Ha; [| discriminate H].
    apply new_ToolCallEvent_approval in H as ->.
    apply parse_approval_Ok in Ha. destruct r as [a|].
    + destruct Ha as (ad & ? & ? & _). split; [by repeat constructor | eauto].
    + by right.
  - unfold _parse_tool_output_available_event in H. unfold_result. simpl in H.
    apply new_ToolCallEvent_approval in H as ->. left. by repeat constructor.
Qed.

(** The record with the empty approval id, normalized. *)
Lemma approval_attached_witness :
  parse_sse_event record_empty_approval_id
  = Ok (EToolCall (mkToolCallEvent "t1" None "input-available" None None
                     (Some (mkToolApproval "" None None))))
  ∧ ∃ d type_, record_empty_approval_id = JDict d
      ∧ dict_get d "type" (JStr "") = JStr type_
      ∧ type_ ∈ ["tool-call"; "tool-input-available"]
      ∧ ∃ ad, d !! "approval" = Some (JDict ad) ∧ ad !! "id" = Some (JStr "").
Proof.
  split; [reflexivity |].
  destruct (approval_attached record_empty_approval_id
              (mkToolCallEvent "t1" None "input-available" None None
                 (Some (mkToolApproval "" None None))) eq_refl)
    as (d & type_ & Hd & Ht & Hin & Had).
  exists d, type_. split_and!; assumption.
Defined.

(* ===================================================================== *)
(** ** The default finish reason                                          *)
(* ===================================================================== *)

Lemma EVENT_PARSERS_finish type_ :
  type_ ∈ ["finish"; "finish-step"] →
  EVENT_PARSERS !! type_ = Some _parse_finish_event.
Proof.
  intros [-> | [-> | H%elem_of_nil]%elem_of_cons]%elem_of_cons;
    [reflexivity | reflexivity | done].
Qed.

(** C10.  A record of type "finish" or "finish-step" without a
    "finishReason" field normalizes to a [Finish] event whose reason is
    "stop": the result is that event with the embedded usage the model
    accepts (none when the record has no usage), and once the accumulator
    has processed it [finish_reason] is "stop" and [finished] is set. *)
Theorem finish_reason_defaults_to_stop (d : gmap string json) (type_ : string) :
  d !! "type" = Some (JStr type_) →
  type_ ∈ ["finish"; "finish-step"] →
  d !! "finishReason" = None →
  let usage := dict_get d "usage" JNull in
  parse_sse_event (JDict d)
  = (u ← validate_usage (if truthy usage then usage else JNull);
     Ok (EFinish (mkFinishEvent "stop" u)))
  ∧ (truthy usage = false →
     parse_sse_event (JDict d) = Ok (EFinish (mkFinishEvent "stop" None)))
  ∧ (∀ ev, parse_sse_event (JDict d) = Ok ev →
       (∃ u, ev = EFinish (mkFinishEvent "stop" u))
       ∧ ∀ self,
           SSEStreamParser.finish_reason (SSEStreamParser.process_event self ev)
           = Some "stop"
           ∧ SSEStreamParser.finished (SSEStreamParser.process_event self ev)
             = true).
Proof.
  intros Ht Hin Hr usage.
  assert (Heq : parse_sse_event (JDict d)
                = (u ← validate_usage (if truthy usage then usage else JNull);
                   Ok (EFinish (mkFinishEvent "stop" u)))).
  { unfold parse_sse_event. unfold_result. simpl.
    unfold dict_get at 1. rewrite Ht. simpl.
    rewrite (EVENT_PARSERS_finish _ Hin).
    unfold _parse_finish_event, new_FinishEvent. unfold_result. simpl.
    replace (dict_get d "finishReason" (JStr "stop")) with (JStr "stop")
      by (unfold dict_get; by rewrite Hr).
    reflexivity. }
  split_and!; [exact Heq | |].
  - intros Hu. rewrite Heq, Hu. reflexivity.
  - intros ev Hev. rewrite Heq in Hev. unfold_result.
    destruct (validate_usage _) as [u|]; [| discriminate Hev].
    injection Hev as <-. split; [by exists u |].
    intros self. unfold SSEStreamParser.finish_reason, SSEStreamParser.finished.
    simpl. by destruct u.
Qed.

(** A finish-step record with embedded usage and no finishReason. *)
Lemma finish_reason_defaults_to_stop_witness :
  parse_sse_event record_finish_step_usage
  = Ok (EFinish (mkFinishEvent "stop" (Some (mkUsageInfo 1 1))))
  ∧ SSEStreamParser.finish_reason
      (SSEStreamParser.process_event SSEStreamParser.init
         (EFinish (mkFinishEvent "stop" (Some (mkUsageInfo 1 1)))))
    = Some "stop".
Proof.
  pose proof (finish_reason_defaults_to_stop
                (<["type" := JStr "finish-step"]>
                   (<["usage" := JDict (<["promptTokens" := JInt 1]>
                                         (<["completionTokens" := JInt 1]> ∅))]> ∅))
                "finish-step" eq_refl
                (list_elem_of_further _ _ _ (list_elem_of_here _ _)) eq_refl)
    as (Heq & _ & Hev).
  split; [exact Heq |].
  exact (proj1 (proj2 (Hev _ Heq) SSEStreamParser.init)).
Defined.

(* ===================================================================== *)
(** ** Normalization of supported and unsupported types                   *)
(* ===================================================================== *)

(** A record whose type has no table entry becomes [Unknown], with the type
    string and the payload as they came. *)
Lemma unknown_type_normalizes d type_ :
  dict_get d "type" (JStr "") = JStr type_ →
  EVENT_PARSERS !! type_ = None →
  parse_sse_event (JDict d) = Ok (EUnknown (mkUnknownEvent type_ d)).
Proof.
  intros Ht Hs. unfold parse_sse_event. unfold_result. simpl.
  rewrite Ht. simpl. rewrite Hs. reflexivity.
Qed.

(** C5.  The type "data-usage" has an entry in the dispatch table, yet a
    record of that type whose "data" field is not a mapping (null, for
    one) makes the normalizer raise: [_parse_usage_event] calls [get] on
    the value without checking that it is a dict. *)
Theorem usage_record_without_mapping_raises :
  EVENT_PARSERS !! "data-usage" = Some _parse_usage_event
  ∧ parse_sse_event (record_usage JNull)
    = Raise (ExAttributeError "'NoneType' object has no attribute 'get'").
Proof. split; reflexivity. Qed.

(** The same for every value that is not a dict. *)
Lemma usage_record_not_dict v :
  is_dict v = false →
  parse_sse_event (record_usage v)
  = Raise (ExAttributeError
             ("'" +:+ type_name v +:+ "' object has no attribute 'get'")).
Proof. intros Hv. destruct v; try discriminate Hv; reflexivity. Qed.

(* ===================================================================== *)
(** ** The line reader                                                    *)
(* ===================================================================== *)

Section ReaderFacts.
Variable scan : string → decoded.

(** Reading [l1 ++ l2]: the lines of [l1] first; those of [l2] only if no
    line of [l1] raised. *)
Lemma read_lines_app l1 l2 fin :
  read_lines scan (l1 ++ l2) fin
  = let g1 := read_lines scan l1 EndOfStream in
    match raised g1 with
    | Some e => g1
    | None =>
        let g2 := read_lines scan l2 fin in
        mkGenerator (yielded g1 ++ yielded g2) (raised g2)
    end.
Proof.
  induction l1 as [|line l1 IH]; simpl.
  - by destruct (read_lines scan l2 fin).
  - destruct (read_line scan line) as [|ev|e]; simpl.
    + exact IH.
    + rewrite IH. simpl. by destruct (raised (read_lines scan l1 EndOfStream)).
    + reflexivity.
Qed.

Lemma data_line payload :
  "data: " +:+ payload
  = String "d" (String "a" (String "t" (String "a" (String ":"
      (String " " payload))))).
Proof. reflexivity. Qed.

(** A "data: " line whose payload is neither blank nor the [DONE] marker is
    decoded and normalized. *)
Lemma read_line_data payload :
  strip payload ≠ "" → strip payload ≠ "[DONE]" →
  read_line scan ("data: " +:+ payload)
  = match data ← json_loads scan payload; parse_sse_event data with
    | Ok ev => Yield ev
    | Raise e => Abort (except_JSONDecodeError e)
    end.
Proof.
  intros Hblank Hdone. rewrite data_line. unfold read_line. simpl.
  destruct (String.eqb_spec (strip payload) "") as [? | _]; [contradiction |].
  destruct (String.eqb_spec (strip payload) "[DONE]") as [? | _]; [contradiction |].
  simpl. destruct payload; reflexivity.
Qed.

(** A "data: " line whose payload is blank or the [DONE] marker is skipped. *)
Lemma read_line_skipped payload :
  strip payload = "" ∨ strip payload = "[DONE]" →
  read_line scan ("data: " +:+ payload) = Continue.
Proof.
  intros Hskip. rewrite data_line. unfold read_line. simpl.
  replace (startswith payload "") with true by (by destruct payload).
  destruct Hskip as [-> | ->]; reflexivity.
Qed.

(** The end of the transport, after lines that were all read. *)
Lemma parse_sse_stream_end lines events fin :
  read_lines scan lines EndOfStream = mkGenerator events None →
  parse_sse_stream scan (mkResponse lines fin)
  = mkGenerator events
      match fin with
      | EndOfStream => None
      | StreamFault e => except_transport e
      end.
Proof.
  intros H. unfold parse_sse_stream. simpl.
  rewrite <- (app_nil_r lines), read_lines_app, H.
  destruct fin; simpl; by rewrite app_nil_r.
Qed.

End ReaderFacts.

(* ===================================================================== *)
(** ** The end of the transport                                           *)
(* ===================================================================== *)

(** C4 as stated fails: both are raised as [KaiStreamError]. *)
Lemma transport_and_parse_errors_share_type :
  ¬ distinct_error_types scan_examples
      (mkResponse [] (StreamFault (ExRemoteProtocolError "peer closed connection")))
      (mkResponse ["data: {not-json}"] EndOfStream).
Proof. intros H. by apply (H _ _ eq_refl eq_refl). Qed.

(** C4, amended.  After lines that were all read, a closure of the
    transport ([StreamClosed]) ends the sequence normally, with the events
    read so far and no exception.  A protocol error of the transport is
    surfaced as a [KaiStreamError] with the message "Connection error during
    streaming", chained to the transport's exception: the same error class
    as for a malformed payload, from which it differs by its message and by
    the exception it is chained to. *)
Theorem transport_end_of_stream (scan : string → decoded)
    (lines : list string) (events : list SSEEvent) (msg : string) :
  read_lines scan lines EndOfStream = mkGenerator events None →
  parse_sse_stream scan (mkResponse lines (StreamFault ExStreamClosed))
  = mkGenerator events None
  ∧ parse_sse_stream scan (mkResponse lines EndOfStream) = mkGenerator events None
  ∧ (let transport_error :=
       ExKaiStreamError "Connection error during streaming" msg
         (ExRemoteProtocolError msg) in
     parse_sse_stream scan
       (mkResponse lines (StreamFault (ExRemoteProtocolError msg)))
     = mkGenerator events (Some transport_error)
     ∧ ∀ d,
         let parse_error := except_JSONDecodeError (ExJSONDecodeError d) in
         class_of transport_error = KaiStreamErrorT
         ∧ class_of parse_error = KaiStreamErrorT
         ∧ "Connection error during streaming"
           ≠ "Failed to parse SSE event: " +:+ str_JSONDecodeError d
         ∧ transport_error ≠ parse_error).
Proof.
  intros H. pose proof (λ fin, parse_sse_stream_end scan _ _ fin H) as Hend.
  split_and!.
  - by rewrite Hend.
  - by rewrite Hend.
  - intros transport_error. split; [by rewrite Hend |].
    intros d parse_error.
    split_and!; [reflexivity | reflexivity | |]; simpl; discriminate.
Qed.

(** An empty object and the [DONE] marker, then the transport ends. *)
Lemma transport_end_of_stream_witness :
  read_lines scan_examples ["data: {}"; "data: [DONE]"] EndOfStream
  = mkGenerator [EUnknown (mkUnknownEvent "" ∅)] None
  ∧ parse_sse_stream scan_examples
      (mkResponse ["data: {}"; "data: [DONE]"] (StreamFault ExStreamClosed))
    = mkGenerator [EUnknown (mkUnknownEvent "" ∅)] None
  ∧ parse_sse_stream scan_examples
      (mkResponse ["data: {}"; "data: [DONE]"]
         (StreamFault (ExRemoteProtocolError "peer closed connection")))
    = mkGenerator [EUnknown (mkUnknownEvent "" ∅)]
        (Some (ExKaiStreamError "Connection error during streaming"
                 "peer closed connection"
                 (ExRemoteProtocolError "peer closed connection"))).
Proof.
  pose proof (transport_end_of_stream scan_examples
                ["data: {}"; "data: [DONE]"] _ "peer closed connection" eq_refl)
    as (Hclosed & _ & Hfault & _).
  split_and!; [reflexivity | exact Hclosed | exact Hfault].
Defined.

(* ===================================================================== *)
(** * Further properties                                                  *)
(* ===================================================================== *)

(** ** The normalizer: what a record's fields do to the result *)

Lemma dict_get_insert_ne (d : gmap string json) k v k' dflt :
  k ≠ k' → dict_get (<[k:=v]> d) k' dflt = dict_get d k' dflt.
Proof. intros H. unfold dict_get. by rewrite lookup_insert_ne. Qed.

Lemma dict_get_insert_eq (d : gmap string json) k v dflt :
  dict_get (<[k:=v]> d) k dflt = v.
Proof. unfold dict_get. by rewrite lookup_insert_eq. Qed.

(** Unfold the parsers down to the lookups in the record. *)
Ltac unfold_parsers :=
  unfold _parse_text_event, _parse_text_delta_event, _parse_step_start_event,
    _parse_tool_call_event, _parse_tool_input_start_event,
    _parse_tool_input_available_event, _parse_tool_output_available_event,
    _parse_tool_output_error_event, _parse_tool_approval_request_event,
    _parse_usage_event, _parse_finish_event, _parse_error_event,
    _parse_approval;
  unfold_result; cbn [attr_get].

Ltac unfold_parsers_in H :=
  unfold _parse_text_event, _parse_text_delta_event, _parse_step_start_event,
    _parse_tool_call_event, _parse_tool_input_start_event,
    _parse_tool_input_available_event, _parse_tool_output_available_event,
    _parse_tool_output_error_event, _parse_tool_approval_request_event,
    _parse_usage_event, _parse_finish_event, _parse_error_event in H;
  unfold_result; cbn [attr_get] in H.

(** X1.  A field that the parser of the record's type does not read has no
    influence on the event: adding it, or changing its value, leaves the
    result of the normalization as it was.  (For a type without table entry
    the whole payload is kept, so this holds for supported types only.) *)
Theorem unread_fields_are_ignored (d : gmap string json) (type_ k : string)
    (v : json) (parse : json → result SSEEvent) :
  dict_get d "type" (JStr "") = JStr type_ →
  EVENT_PARSERS !! type_ = Some parse →
  k ≠ "type" → k ∉ fields_read type_ →
  parse_sse_event (JDict (<[k:=v]> d)) = parse_sse_event (JDict d).
Proof.
  intros Ht Hs Hk Hread.
  assert (Hne : ∀ k', k' = "type" ∨ k' ∈ fields_read type_ → k ≠ k').
  { intros k' [-> | Hin] ->; [by apply Hk | by apply Hread]. }
  unfold parse_sse_event. unfold_result. cbn [attr_get].
  rewrite dict_get_insert_ne by (apply Hne; by left). rewrite Ht.
  cbn [EVENT_PARSERS_get]. rewrite Hs. clear Ht.
  table_cases Hs; unfold_parsers;
    rewrite ?dict_get_insert_ne
      by (apply Hne; right; vm_compute fields_read; by repeat constructor);
    reflexivity.
Qed.

(** [{"type": "data-usage", "promptTokens": 7, "data": {}}]: the counters
    are read under "data" only. *)
Lemma unread_fields_are_ignored_witness :
  ("promptTokens" ∉ fields_read "data-usage")
  ∧ parse_sse_event
      (JDict (<["promptTokens" := JInt 7]>
                (<["type" := JStr "data-usage"]> (<["data" := JDict ∅]> ∅))))
    = parse_sse_event
        (JDict (<["type" := JStr "data-usage"]> (<["data" := JDict ∅]> ∅))).
Proof.
  assert (Hread : "promptTokens" ∉ fields_read "data-usage").
  { vm_compute fields_read. intros [H | H]%elem_of_cons; [discriminate H |].
    by apply elem_of_nil in H. }
  split; [exact Hread |].
  assert (Ht : dict_get (<["type" := JStr "data-usage"]> (<["data" := JDict ∅]> ∅))
                 "type" (JStr "") = JStr "data-usage") by reflexivity.
  assert (Hs : EVENT_PARSERS !! "data-usage" = Some _parse_usage_event)
    by reflexivity.
  apply (unread_fields_are_ignored _ _ "promptTokens" (JInt 7) _ Ht Hs);
    [discriminate | exact Hread].
Defined.

(** X2.  The result depends on the type string only through the parser the
    table gives for it: two records that differ in their "type" alone, with
    types that share a parser, normalize alike.  So "start-step" is
    "step-start" and "finish-step" is "finish". *)
Theorem aliased_types_normalize_alike (d : gmap string json) (t1 t2 : string)
    (parse : json → result SSEEvent) :
  EVENT_PARSERS !! t1 = Some parse →
  EVENT_PARSERS !! t2 = Some parse →
  parse_sse_event (JDict (<["type" := JStr t1]> d))
  = parse_sse_event (JDict (<["type" := JStr t2]> d)).
Proof.
  intros H1 H2. unfold parse_sse_event. unfold_result. cbn [attr_get].
  rewrite !dict_get_insert_eq. cbn [EVENT_PARSERS_get]. rewrite H1, H2.
  clear H2. table_cases H1; unfold_parsers;
    rewrite ?dict_get_insert_ne by discriminate; reflexivity.
Qed.

(** A finish-step record and the finish record with the same fields. *)
Lemma aliased_types_normalize_alike_witness :
  EVENT_PARSERS !! "finish-step" = Some _parse_finish_event
  ∧ EVENT_PARSERS !! "finish" = Some _parse_finish_event
  ∧ ∀ d, parse_sse_event (JDict (<["type" := JStr "finish-step"]> d))
         = parse_sse_event (JDict (<["type" := JStr "finish"]> d)).
Proof.
  assert (H1 : EVENT_PARSERS !! "finish-step" = Some _parse_finish_event)
    by reflexivity.
  assert (H2 : EVENT_PARSERS !! "finish" = Some _parse_finish_event)
    by reflexivity.
  split_and!; [exact H1 | exact H2 |].
  intros d. exact (aliased_types_normalize_alike d _ _ _ H1 H2).
Defined.

(** X3.  The two dialects meet in one event: a local "text" record and a
    production "text-delta" record with the same fragment and the same other
    fields normalize to the same result, and so do a production
    "tool-input-available" record and the local "tool-call" record that
    states the phase "input-available" and has no output. *)
Theorem dialects_normalize_alike (d : gmap string json) (fragment : json) :
  parse_sse_event (JDict (<["type" := JStr "text"]> (<["text" := fragment]> d)))
  = parse_sse_event
      (JDict (<["type" := JStr "text-delta"]> (<["delta" := fragment]> d)))
  ∧ parse_sse_event (JDict (<["type" := JStr "tool-input-available"]> d))
    = parse_sse_event
        (JDict (<["type" := JStr "tool-call"]>
                  (<["state" := JStr "input-available"]> (delete "output" d)))).
Proof.
  split.
  - unfold parse_sse_event. unfold_result. cbn [attr_get].
    rewrite !dict_get_insert_eq. cbn [EVENT_PARSERS_get].
    change (EVENT_PARSERS !! "text") with (Some _parse_text_event).
    change (EVENT_PARSERS !! "text-delta") with (Some _parse_text_delta_event).
    unfold_parsers.
    rewrite !(dict_get_insert_ne _ "type") by discriminate.
    rewrite !dict_get_insert_eq.
    rewrite !(dict_get_insert_ne _ _ _ "state") by discriminate.
    reflexivity.
  - unfold parse_sse_event. unfold_result. cbn [attr_get].
    rewrite !dict_get_insert_eq. cbn [EVENT_PARSERS_get].
    change (EVENT_PARSERS !! "tool-input-available")
      with (Some _parse_tool_input_available_event).
    change (EVENT_PARSERS !! "tool-call") with (Some _parse_tool_call_event).
    unfold_parsers.
    rewrite !(dict_get_insert_ne _ "type") by discriminate.
    rewrite !dict_get_insert_eq.
    rewrite !(dict_get_insert_ne _ "state") by discriminate.
    assert (Hdel : ∀ k dflt, k ≠ "output" →
              dict_get (delete "output" d) k dflt = dict_get d k dflt).
    { intros k dflt Hk. unfold dict_get. by rewrite lookup_delete_ne. }
    rewrite !Hdel by discriminate.
    replace (dict_get (delete "output" d) "output" JNull) with JNull
      by (unfold dict_get; by rewrite lookup_delete_eq).
    reflexivity.
Qed.

(** X4.  The normalizer answers [Unknown] exactly for the records whose type
    string (the empty string when the record has no "type") has no entry in
    the table, and the event then carries that string and the whole record;
    such a record never makes it raise. *)
Theorem unknown_exactly_for_unlisted_types (d : gmap string json) :
  (∀ u, parse_sse_event (JDict d) = Ok (EUnknown u)
        ↔ ∃ type_, dict_get d "type" (JStr "") = JStr type_
                   ∧ EVENT_PARSERS !! type_ = None
                   ∧ u = mkUnknownEvent type_ d)
  ∧ (d !! "type" = None →
     parse_sse_event (JDict d) = Ok (EUnknown (mkUnknownEvent "" d))).
Proof.
  split.
  - intros u. split.
    + intros H. apply parse_sse_event_ok in H as (d' & s & [= <-] & Ht & H).
      exists s. destruct (EVENT_PARSERS !! s) eqn:Hs.
      * pose proof (parser_kind _ _ _ _ Hs H) as Hk.
        table_cases Hs; vm_compute in Hk; discriminate Hk.
      * injection H as ->. split_and!; done.
    + intros (s & Ht & Hs & ->). by apply unknown_type_normalizes.
  - intros Hnone. apply unknown_type_normalizes; [| reflexivity].
    unfold dict_get. by rewrite Hnone.
Qed.

(** The empty record: no type, hence [Unknown] with the empty type. *)
Lemma unknown_exactly_for_unlisted_types_witness :
  (∅ : gmap string json) !! "type" = None
  ∧ parse_sse_event (JDict ∅) = Ok (EUnknown (mkUnknownEvent "" ∅)).
Proof.
  assert (H : (∅ : gmap string json) !! "type" = None) by reflexivity.
  split; [exact H |].
  exact (proj2 (unknown_exactly_for_unlisted_types ∅) H).
Defined.

(** X5.  The phase of a [ToolCall] event is fixed by the wire type for the
    production dialect ("started", "input-available", "output-available",
    whatever the record says under "state") and is the record's "state" for
    the local "tool-call" type, the empty string when it has none; the id is
    the record's "toolCallId", the empty string when it has none.  The types
    "tool-input-start" and "tool-output-available" never carry an input, and
    "tool-input-start" and "tool-input-available" never carry an output. *)
Theorem tool_call_phase_by_type (d : gmap string json) (type_ : string)
    (e : ToolCallEvent) :
  dict_get d "type" (JStr "") = JStr type_ →
  parse_sse_event (JDict d) = Ok (EToolCall e) →
  dict_get d "toolCallId" (JStr "") = JStr (tool_call_id e)
  ∧ (type_ = "tool-call" ∧ dict_get d "state" (JStr "") = JStr (state e)
     ∨ type_ = "tool-input-start" ∧ state e = "started"
       ∧ input e = None ∧ output e = None
     ∨ type_ = "tool-input-available" ∧ state e = "input-available"
       ∧ output e = None
     ∨ type_ = "tool-output-available" ∧ state e = "output-available"
       ∧ input e = None).
Proof.
  intros Ht H. apply parse_sse_event_ok in H as (d' & s & [= <-] & Ht' & H).
  rewrite Ht in Ht'. injection Ht' as <-.
  destruct (EVENT_PARSERS !! type_) eqn:Hs; [| discriminate H].
  pose proof (parser_kind _ _ _ _ Hs H) as Hk.
  table_cases Hs; try (vm_compute in Hk; discriminate Hk); clear Hk.
  - unfold _parse_tool_call_event in H. unfold_result. cbn [attr_get] in H.
    destruct (_parse_approval (JDict d)) as [r|]; [| discriminate H].
    unfold new_ToolCallEvent in H. unfold_result.
    destruct (as_str _ _ (dict_get d "toolCallId" _)) as [i|] eqn:Hi;
      [| discriminate H].
    destruct (as_opt_str _ _ _) as [n|]; [| discriminate H].
    destruct (as_str _ _ (dict_get d "state" _)) as [st|] eqn:Hst;
      [| discriminate H].
    injection H as <-. apply as_str_Ok in Hi, Hst. simpl. split; [done |].
    by left.
  - unfold _parse_tool_input_start_event, new_ToolCallEvent in H.
    unfold_result. cbn [attr_get] in H.
    destruct (as_str _ _ (dict_get d "toolCallId" _)) as [i|] eqn:Hi;
      [| discriminate H].
    destruct (as_opt_str _ _ _) as [n|]; [| discriminate H].
    simpl in H. injection H as <-. apply as_str_Ok in Hi. simpl.
    split; [done |]. right; left. done.
  - unfold _parse_tool_input_available_event in H. unfold_result.
    cbn [attr_get] in H.
    destruct (_parse_approval (JDict d)) as [r|]; [| discriminate H].
    unfold new_ToolCallEvent in H. unfold_result.
    destruct (as_str _ _ (dict_get d "toolCallId" _)) as [i|] eqn:Hi;
      [| discriminate H].
    destruct (as_opt_str _ _ _) as [n|]; [| discriminate H].
    simpl in H. injection H as <-. apply as_str_Ok in Hi. simpl.
    split; [done |]. right; right; left. done.
  - unfold _parse_tool_output_available_event, new_ToolCallEvent in H.
    unfold_result. cbn [attr_get] in H.
    destruct (as_str _ _ (dict_get d "toolCallId" _)) as [i|] eqn:Hi;
      [| discriminate H].
    destruct (as_opt_str _ _ _) as [n|]; [| discriminate H].
    simpl in H. injection H as <-. apply as_str_Ok in Hi. simpl.
    split; [done |]. right; right; right. done.
Qed.

(** [{"type": "tool-output-available", "toolCallId": "t1",
      "state": "input-available"}]: the phase is that of the type. *)
Lemma tool_call_phase_by_type_witness :
  let d : gmap string json :=
    <["type" := JStr "tool-output-available"]>
      (<["toolCallId" := JStr "t1"]> (<["state" := JStr "input-available"]> ∅)) in
  parse_sse_event (JDict d)
  = Ok (EToolCall (mkToolCallEvent "t1" None "output-available" None None None))
  ∧ dict_get d "toolCallId" (JStr "") = JStr "t1".
Proof.
  intros d.
  assert (Ht : dict_get d "type" (JStr "") = JStr "tool-output-available")
    by reflexivity.
  assert (H : parse_sse_event (JDict d)
              = Ok (EToolCall (mkToolCallEvent "t1" None "output-available"
                                 None None None))) by reflexivity.
  split; [exact H |].
  exact (proj1 (tool_call_phase_by_type d _ _ Ht H)).
Defined.

(** ** The exceptions of the normalizer *)

Create HintDb raises.

Lemma validation_error_class model field :
  class_of (ExValidationError model field) ∈ normalizer_exceptions.
Proof. right; right; left. Qed.

Lemma attr_get_Raise obj key dflt e :
  attr_get obj key dflt = Raise e → class_of e ∈ normalizer_exceptions.
Proof. destruct obj; simpl; intros [= <-]; by left. Qed.

Lemma as_str_Raise model field v e :
  as_str model field v = Raise e → class_of e ∈ normalizer_exceptions.
Proof. destruct v; simpl; intros [= <-]; apply validation_error_class. Qed.

Lemma as_opt_str_Raise model field v e :
  as_opt_str model field v = Raise e → class_of e ∈ normalizer_exceptions.
Proof. destruct v; simpl; intros [= <-]; apply validation_error_class. Qed.

Lemma as_opt_bool_Raise model field v e :
  as_opt_bool model field v = Raise e → class_of e ∈ normalizer_exceptions.
Proof. destruct v; simpl; intros [= <-]; apply validation_error_class. Qed.

Lemma as_count_Raise model field v e :
  as_count model field v = Raise e → class_of e ∈ normalizer_exceptions.
Proof.
  destruct v as [| |z| | | |]; simpl; try (intros [= <-]; apply validation_error_class).
  destruct (0 <=? z)%Z; intros [= <-]. apply validation_error_class.
Qed.

#[local] Hint Resolve attr_get_Raise as_str_Raise as_opt_str_Raise
  as_opt_bool_Raise as_count_Raise validation_error_class : raises.

(** One step through a sequence of fallible calls that ended in [Raise]:
    either the first call raised, or the rest did. *)
Ltac raise_step H :=
  match type of H with
  | match ?x with Ok _ => _ | Raise _ => _ end = Raise _ =>
      let Hx := fresh "Hx" in
      destruct x eqn:Hx; [| injection H as <-; eauto with raises]
  end.

Lemma new_UsageInfo_Raise p c e :
  new_UsageInfo p c = Raise e → class_of e ∈ normalizer_exceptions.
Proof.
  unfold new_UsageInfo. unfold_result. intros H.
  repeat raise_step H. discriminate H.
Qed.

Lemma validate_usage_Raise usage e :
  validate_usage usage = Raise e → class_of e ∈ normalizer_exceptions.
Proof.
  unfold validate_usage. unfold_result.
  destruct usage as [| | | | | |d];
    try (intros [= <-]; apply validation_error_class).
  destruct (d !! "promptTokens"), (d !! "completionTokens");
    try (intros [= <-]; apply validation_error_class).
  intros H.
  destruct (new_UsageInfo _ _) eqn:Hu; [discriminate H |].
  injection H as <-. by eapply new_UsageInfo_Raise.
Qed.

Lemma new_ToolApproval_Raise i a r e :
  new_ToolApproval i a r = Raise e → class_of e ∈ normalizer_exceptions.
Proof.
  unfold new_ToolApproval. unfold_result. intros H.
  repeat raise_step H. discriminate H.
Qed.

#[local] Hint Resolve new_UsageInfo_Raise validate_usage_Raise
  new_ToolApproval_Raise : raises.

(** The subscript [approval_data["id"]] is reached only when the key is
    there: [_parse_approval] raises no [KeyError]. *)
Lemma parse_approval_Raise data e :
  _parse_approval data = Raise e → class_of e ∈ normalizer_exceptions.
Proof.
  unfold _parse_approval. unfold_result. intros H. raise_step H.
  destruct a as [| | | | | |ad]; try discriminate H.
  destruct (truthy (JDict ad) && is_dict (JDict ad) && dict_contains ad "id")
    eqn:Hc; [| discriminate H].
  unfold dict_item in H. unfold dict_contains in Hc.
  destruct (ad !! "id") as [i|] eqn:Hi.
  - cbn [attr_get] in H. repeat raise_step H. discriminate H.
  - rewrite (bool_decide_eq_false_2 (is_Some None)) in Hc by (intros [? [=]]).
    rewrite andb_false_r in Hc. discriminate Hc.
Qed.

#[local] Hint Resolve parse_approval_Raise : raises.

Lemma new_event_Raise :
  (∀ t s e, new_TextEvent t s = Raise e → class_of e ∈ normalizer_exceptions)
  ∧ (∀ i n s inp out a e,
       new_ToolCallEvent i n s inp out a = Raise e →
       class_of e ∈ normalizer_exceptions)
  ∧ (∀ i t e, new_ToolOutputErrorEvent i t = Raise e →
              class_of e ∈ normalizer_exceptions)
  ∧ (∀ a i e, new_ToolApprovalRequestEvent a i = Raise e →
              class_of e ∈ normalizer_exceptions)
  ∧ (∀ r u e, new_FinishEvent r u = Raise e → class_of e ∈ normalizer_exceptions)
  ∧ (∀ m c e, new_ErrorEvent m c = Raise e → class_of e ∈ normalizer_exceptions)
  ∧ (∀ t d e, new_UnknownEvent t d = Raise e → class_of e ∈ normalizer_exceptions).
Proof.
  unfold new_TextEvent, new_ToolCallEvent, new_ToolOutputErrorEvent,
    new_ToolApprovalRequestEvent, new_FinishEvent, new_ErrorEvent,
    new_UnknownEvent.
  unfold_result. split_and!; intros; 
    match goal with H : _ = Raise _ |- _ => repeat raise_step H; try discriminate H end.
  destruct d; try discriminate; 
    match goal with H : _ = Raise _ |- _ => injection H as <- end;
    apply validation_error_class.
Qed.

Lemma parse_sse_event_Raise data e :
  parse_sse_event data = Raise e → class_of e ∈ normalizer_exceptions.
Proof.
  intros H. destruct new_event_Raise as (HT & HC & HO & HA & HF & HE & HU).
  unfold parse_sse_event in H. unfold_result. raise_step H.
  destruct data as [| | | | | |d]; try discriminate Hx.
  cbn [attr_get] in Hx. injection Hx as <-.
  unfold EVENT_PARSERS_get in H.
  destruct (dict_get d "type" (JStr "")) as [| | | |s|l|d'];
    try (cbn in H; injection H as <-; right; by left);
    try (by eapply HU).
  cbv beta iota in H.
  destruct (EVENT_PARSERS !! s) eqn:Hs; [| discriminate H].
  table_cases Hs; unfold_parsers_in H;
    unfold new_StepStartEvent, new_UsageEvent in H; unfold_result;
    repeat raise_step H; try discriminate H; eauto.
Qed.

(** The handlers of the reader leave an exception of the normalizer alone. *)
Lemma normalizer_exception_passes e :
  class_of e ∈ normalizer_exceptions →
  except_JSONDecodeError e = e ∧ except_transport e = Some e.
Proof.
  unfold normalizer_exceptions. intros Hin.
  destruct e; try (split; reflexivity);
    repeat (apply elem_of_cons in Hin as [Hin | Hin]; [discriminate Hin |]);
    by apply elem_of_nil in Hin.
Qed.

(** X6.  When the normalizer raises, it is an [AttributeError] (the record,
    or the "data" of a usage record, is not a mapping), a [TypeError] (the
    "type" is a list or a mapping, which cannot be a key) or a rejection by
    the event model.  It raises no [KeyError]: the one subscript,
    [approval_data["id"]], is guarded by the membership test. *)
Theorem normalizer_raises_only (data : json) (e : exn) :
  parse_sse_event data = Raise e →
  class_of e ∈ normalizer_exceptions ∧ class_of e ≠ KeyErrorT.
Proof.
  intros H. apply parse_sse_event_Raise in H as Hin.
  split; [exact Hin |].
  intros Hk. rewrite Hk in Hin. unfold normalizer_exceptions in Hin.
  repeat (apply elem_of_cons in Hin as [Hin | Hin]; [discriminate Hin |]).
  by apply elem_of_nil in Hin.
Qed.

(** [{"type": ["text"]}]: a list cannot be looked up in the table. *)
Lemma normalizer_raises_only_witness :
  parse_sse_event (JDict (<["type" := JList [JStr "text"]]> ∅))
  = Raise (ExTypeError "unhashable type: 'list'")
  ∧ class_of (ExTypeError "unhashable type: 'list'") ∈ normalizer_exceptions.
Proof.
  assert (H : parse_sse_event (JDict (<["type" := JList [JStr "text"]]> ∅))
              = Raise (ExTypeError "unhashable type: 'list'")) by reflexivity.
  split; [exact H |].
  exact (proj1 (normalizer_raises_only _ _ H)).
Defined.

(** X7.  A record that holds its type and nothing else always normalizes:
    every field takes the default of its parser (the empty string for text
    and ids, "Unknown error" for error texts, "stop" for the finish reason,
    zero tokens, no optional attribute), and a type without table entry
    gives [Unknown]. *)
Theorem bare_record_takes_defaults (type_ : string) :
  parse_sse_event (JDict {["type" := JStr type_]}) = Ok (default_event type_).
Proof.
  destruct (EVENT_PARSERS !! type_) as [parse|] eqn:Hs.
  - table_cases Hs; vm_compute; reflexivity.
  - unfold default_event. rewrite (wire_kind_unknown _ Hs).
    apply unknown_type_normalizes; [| exact Hs].
    unfold dict_get. by rewrite lookup_singleton_eq.
Qed.

(** ** The line reader: what ends a stream and what does not *)

Section ReaderMore.
Variable scan : string → decoded.

(** A line either is passed over, or yields an event, or ends the stream:
    with a [KaiStreamError] chained to a decode error, with an exception of
    the normalizer, or with the exception the decoder gave up with. *)
Lemma read_line_Abort line e :
  read_line scan line = Abort e →
  (∃ message cause d, e = ExKaiStreamError message cause (ExJSONDecodeError d))
  ∨ class_of e ∈ normalizer_exceptions
  ∨ (∃ cls msg, e = ExOther cls msg).
Proof.
  unfold read_line, json_loads. unfold_result. intros H.
  repeat match type of H with
         | (if ?c then _ else _) = _ => destruct c; try discriminate H
         end.
  destruct (scan _) as [data|msg pos|cls msg].
  - destruct (parse_sse_event data) as [ev|e'] eqn:Hp; [discriminate H |].
    injection H as <-. apply parse_sse_event_Raise in Hp.
    destruct (normalizer_exception_passes _ Hp) as [-> _]. right. by left.
  - injection H as <-. left. eauto.
  - injection H as <-. right. right. eauto.
Qed.

Lemma read_line_noise line : is_noise line = true → read_line scan line = Continue.
Proof.
  unfold is_noise, read_line. intros H.
  destruct (negb (truthy (JStr line)) || startswith line ":"); [reflexivity |].
  destruct (startswith line "data: "); cbn [negb orb] in H.
  - cbv zeta. unfold truthy.
    destruct (String.eqb (strip (str_from 6 line)) ""); [reflexivity |].
    cbn [negb orb] in *. rewrite H. reflexivity.
  - by repeat match goal with |- (if ?c then _ else _) = _ => destruct c end.
Qed.

End ReaderMore.

Section ReaderStreams.
Variable scan : string → decoded.

Lemma read_lines_noise lines fin :
  read_lines scan lines fin
  = read_lines scan (filter (λ line, is_noise line = false) lines) fin.
Proof.
  induction lines as [|line lines IH]; [reflexivity |].
  destruct (is_noise line) eqn:Hn.
  - rewrite filter_cons_False by congruence.
    simpl. by rewrite (read_line_noise scan line Hn).
  - rewrite filter_cons_True by done. simpl. by rewrite IH.
Qed.

(** Where the exception of the loop comes from: a line, or the transport. *)
Lemma read_lines_raised lines fin e :
  raised (read_lines scan lines fin) = Some e →
  (∃ line, line ∈ lines ∧ read_line scan line = Abort e) ∨ fin = StreamFault e.
Proof.
  induction lines as [|line lines IH]; simpl.
  - destruct fin; [discriminate | intros [= ->]; by right].
  - destruct (read_line scan line) as [|ev|e'] eqn:Hl; simpl.
    + intros [(l & Hin & Hl') | ->]%IH; [left | by right].
      exists l. split; [by right | done].
    + intros [(l & Hin & Hl') | ->]%IH; [left | by right].
      exists l. split; [by right | done].
    + intros [= ->]. left. exists line. split; [by left | done].
Qed.

(** No line ends the stream with an exception that the outer handlers
    swallow or rewrite. *)
Lemma read_line_Abort_passes line e :
  read_line scan line = Abort e → except_transport e = Some e.
Proof.
  intros [(m & c & d & ->) | [Hin | (cls & msg & ->)]]%read_line_Abort;
    [reflexivity | | reflexivity].
  by apply normalizer_exception_passes.
Qed.

(** When the stream ends without an exception, every line was read, and the
    transport ended or was closed. *)
Lemma read_lines_completed lines fin :
  raised (parse_sse_stream scan (mkResponse lines fin)) = None →
  read_lines scan lines EndOfStream
  = mkGenerator (yielded (read_lines scan lines fin)) None.
Proof.
  unfold parse_sse_stream. simpl. induction lines as [|line lines IH]; simpl.
  - by destruct fin.
  - destruct (read_line scan line) as [|ev|e] eqn:Hl; simpl.
    + exact IH.
    + intros H. rewrite (IH H). reflexivity.
    + rewrite (read_line_Abort_passes _ _ Hl). discriminate.
Qed.

End ReaderStreams.

(** ** Malformed payloads *)



(** X8.  A "data: " line whose payload is well-formed JSON but makes the
    normalizer raise (a JSON value that is not an object, for one) ends the
    stream with the normalizer's own exception: it is not turned into a
    [KaiStreamError], the events of the earlier lines have been yielded and
    nothing of the later lines is. *)
Theorem normalizer_failure_ends_stream (scan : string → decoded)
    (before after : list string) (payload : string) (fin : stream_end)
    (events : list SSEEvent) (data : json) (e : exn) :
  read_lines scan before EndOfStream = mkGenerator events None →
  strip payload ≠ "" → strip payload ≠ "[DONE]" →
  scan payload = Decoded data →
  parse_sse_event data = Raise e →
  parse_sse_stream scan
    (mkResponse (before ++ ("data: " +:+ payload) :: after) fin)
  = mkGenerator events (Some e)
  ∧ class_of e ≠ KaiStreamErrorT
  ∧ (is_dict data = false → class_of e = AttributeErrorT).
Proof.
  intros Hbefore Hblank Hdone Hscan Hraise.
  pose proof (parse_sse_event_Raise _ _ Hraise) as Hin.
  destruct (normalizer_exception_passes _ Hin) as [He1 He2].
  split_and!.
  - unfold parse_sse_stream. simpl. rewrite read_lines_app, Hbefore. simpl.
    rewrite (read_line_data scan payload Hblank Hdone).
    unfold json_loads. rewrite Hscan. unfold_result. rewrite Hraise, He1.
    simpl. by rewrite app_nil_r, He2.
  - intros Hk. rewrite Hk in Hin. unfold normalizer_exceptions in Hin.
    repeat (apply elem_of_cons in Hin as [Hin | Hin]; [discriminate Hin |]).
    by apply elem_of_nil in Hin.
  - intros Hd. destruct data; try discriminate Hd;
      injection Hraise as <-; reflexivity.
Qed.

(** The line [data: 5]: a number has no [get]. *)
Lemma normalizer_failure_ends_stream_witness :
  strip "5" ≠ "" ∧ strip "5" ≠ "[DONE]"
  ∧ parse_sse_stream scan_values
      (mkResponse (["data: {}"] ++ ("data: " +:+ "5") :: ["data: {}"]) EndOfStream)
    = mkGenerator [EUnknown (mkUnknownEvent "" ∅)]
        (Some (ExAttributeError "'int' object has no attribute 'get'")).
Proof.
  assert (Hblank : strip "5" ≠ "") by discriminate.
  assert (Hdone : strip "5" ≠ "[DONE]") by discriminate.
  assert (Hbefore : read_lines scan_values ["data: {}"] EndOfStream
                    = mkGenerator [EUnknown (mkUnknownEvent "" ∅)] None)
    by reflexivity.
  assert (Hscan : scan_values "5" = Decoded (JInt 5)) by reflexivity.
  assert (Hraise : parse_sse_event (JInt 5)
                   = Raise (ExAttributeError "'int' object has no attribute 'get'"))
    by reflexivity.
  split_and!; [exact Hblank | exact Hdone |].
  exact (proj1 (normalizer_failure_ends_stream scan_values _ ["data: {}"] "5"
                  EndOfStream _ _ _ Hbefore Hblank Hdone Hscan Hraise)).
Defined.

(** X21.  A payload on which the decoder gives up with an exception that is
    not a [JSONDecodeError] (a [ValueError] for an integer literal beyond the
    digit limit, a [RecursionError] for too deep a nesting) ends the stream
    with that exception as it is: only a [JSONDecodeError] is turned into a
    [KaiStreamError].  The events of the earlier lines have been yielded and
    nothing of the later lines is. *)
Theorem decoder_refusal_is_not_wrapped (scan : string → decoded)
    (before after : list string) (payload : string) (fin : stream_end)
    (events : list SSEEvent) (cls msg : string) :
  read_lines scan before EndOfStream = mkGenerator events None →
  strip payload ≠ "" → strip payload ≠ "[DONE]" →
  scan payload = Refused cls msg →
  parse_sse_stream scan
    (mkResponse (before ++ ("data: " +:+ payload) :: after) fin)
  = mkGenerator events (Some (ExOther cls msg))
  ∧ class_of (ExOther cls msg) ≠ KaiStreamErrorT.
Proof.
  intros Hbefore Hblank Hdone Hscan. split; [| discriminate].
  unfold parse_sse_stream. simpl. rewrite read_lines_app, Hbefore. simpl.
  rewrite (read_line_data scan payload Hblank Hdone).
  unfold json_loads. rewrite Hscan. simpl. by rewrite app_nil_r.
Qed.

(** An empty object, then an integer of 4301 digits. *)
Lemma decoder_refusal_is_not_wrapped_witness :
  read_lines scan_limits ["data: {}"] EndOfStream
  = mkGenerator [EUnknown (mkUnknownEvent "" ∅)] None
  ∧ strip (digits 4301) ≠ ""
  ∧ strip (digits 4301) ≠ "[DONE]"
  ∧ raised (parse_sse_stream scan_limits
              (mkResponse (["data: {}"] ++ ("data: " +:+ digits 4301) :: [])
                 EndOfStream))
    = Some (ExOther "ValueError"
              ("Exceeds the limit (4300 digits) for integer string conversion: "
               +:+ "value has 4301 digits; "
               +:+ "use sys.set_int_max_str_digits() to increase the limit")).
Proof.
  assert (Hbefore : read_lines scan_limits ["data: {}"] EndOfStream
                    = mkGenerator [EUnknown (mkUnknownEvent "" ∅)] None)
    by (vm_compute; reflexivity).
  assert (Hblank : strip (digits 4301) ≠ "") by (vm_compute; discriminate).
  assert (Hdone : strip (digits 4301) ≠ "[DONE]") by (vm_compute; discriminate).
  assert (Hscan : scan_limits (digits 4301)
                  = Refused "ValueError"
                      ("Exceeds the limit (4300 digits) for integer string conversion: "
                       +:+ "value has 4301 digits; "
                       +:+ "use sys.set_int_max_str_digits() to increase the limit"))
    by (vm_compute; reflexivity).
  split_and!; [exact Hbefore | exact Hblank | exact Hdone |].
  rewrite (proj1 (decoder_refusal_is_not_wrapped scan_limits _ [] _ EndOfStream
                    _ _ _ Hbefore Hblank Hdone Hscan)).
  reflexivity.
Defined.

(** X9.  Only "data: " lines with a payload matter: the lines that do not
    start with "data: " (blank lines, comments, "event:", "id:" and "retry:"
    fields, anything else) and the "data: " lines whose payload is blank or
    the [DONE] marker can be removed from a stream without changing what the
    reader yields or how it ends.  A line that starts with "data:" not
    followed by a space is among them. *)
Theorem noise_lines_do_not_matter (scan : string → decoded)
    (lines : list string) (fin : stream_end) :
  parse_sse_stream scan (mkResponse lines fin)
  = parse_sse_stream scan
      (mkResponse (filter (λ line, is_noise line = false) lines) fin)
  ∧ (∀ c rest, c ≠ " "%char → is_noise ("data:" +:+ String c rest) = true)
  ∧ is_noise "data:" = true.
Proof.
  split_and!.
  - unfold parse_sse_stream. simpl. by rewrite read_lines_noise.
  - intros c rest Hc.
    destruct c as [[] [] [] [] [] [] [] []];
      first [vm_compute; reflexivity | by (exfalso; apply Hc)].
  - reflexivity.
Qed.

(** A record right after the colon is not read. *)
Lemma noise_lines_do_not_matter_witness :
  "{"%char ≠ " "%char ∧ is_noise ("data:" +:+ String "{" "}") = true.
Proof.
  assert (H : "{"%char ≠ " "%char) by discriminate.
  split; [exact H |].
  exact (proj1 (proj2 (noise_lines_do_not_matter scan_values [] EndOfStream))
           "{"%char "}" H).
Defined.

(** X10.  What has been yielded stays: the events of a prefix of the lines
    are a prefix of the events of the whole stream.  And an exception is
    final: once a line has ended the stream, the lines after it and the way
    the transport ends change nothing. *)
Theorem aborted_stream_ignores_the_rest (scan : string → decoded)
    (lines rest : list string) (fin : stream_end) :
  yielded (parse_sse_stream scan (mkResponse lines EndOfStream))
    `prefix_of` yielded (parse_sse_stream scan (mkResponse (lines ++ rest) fin))
  ∧ (is_Some (raised (read_lines scan lines EndOfStream)) →
     parse_sse_stream scan (mkResponse (lines ++ rest) fin)
     = parse_sse_stream scan (mkResponse lines EndOfStream)).
Proof.
  unfold parse_sse_stream. simpl. rewrite read_lines_app. simpl.
  destruct (raised (read_lines scan lines EndOfStream)) as [e|] eqn:Hr.
  - split; [reflexivity | by rewrite Hr].
  - simpl. split; [by apply prefix_app_r | by intros [? [=]]].
Qed.

(** After [data: 5] nothing counts. *)
Lemma aborted_stream_ignores_the_rest_witness :
  is_Some (raised (read_lines scan_values ["data: {}"; "data: 5"] EndOfStream))
  ∧ parse_sse_stream scan_values
      (mkResponse (["data: {}"; "data: 5"] ++ ["data: {}"])
         (StreamFault (ExRemoteProtocolError "peer closed connection")))
    = parse_sse_stream scan_values
        (mkResponse ["data: {}"; "data: 5"] EndOfStream).
Proof.
  assert (H : is_Some (raised (read_lines scan_values
                                 ["data: {}"; "data: 5"] EndOfStream)))
    by (eexists; reflexivity).
  split; [exact H |].
  exact (proj2 (aborted_stream_ignores_the_rest scan_values
                  ["data: {}"; "data: 5"] ["data: {}"]
                  (StreamFault (ExRemoteProtocolError "peer closed connection")))
           H).
Defined.

(** X11.  What the reader does to exceptions.  It never ends with
    [StreamClosed] or [RemoteProtocolError], whatever the transport and the
    decoder do: the first is swallowed and the second is raised as
    [KaiStreamError].  The decode error of a payload never leaves it bare:
    when the reader ends with a bare [JSONDecodeError], it is one that the
    transport itself raised.  And when the lines were read without an
    exception, an exception of the transport of any class other than those
    two passes through unchanged. *)
Theorem reader_rewrites_its_exceptions (scan : string → decoded)
    (response : Response) :
  (∀ e, raised (parse_sse_stream scan response) = Some e →
        class_of e ≠ StreamClosedT
        ∧ class_of e ≠ RemoteProtocolErrorT
        ∧ (class_of e = JSONDecodeErrorT → aiter_end response = StreamFault e))
  ∧ (∀ e, aiter_end response = StreamFault e →
          raised (read_lines scan (aiter_lines response) EndOfStream) = None →
          class_of e ≠ StreamClosedT → class_of e ≠ RemoteProtocolErrorT →
          raised (parse_sse_stream scan response) = Some e).
Proof.
  split.
  - intros e. unfold parse_sse_stream. simpl.
    destruct (raised (read_lines scan _ _)) as [e0|] eqn:Hr; [| discriminate].
    simpl. intros He.
    apply read_lines_raised in Hr as [(line & _ & Hl) | Hfin].
    + rewrite (read_line_Abort_passes _ _ _ Hl) in He. injection He as <-.
      apply read_line_Abort in Hl
        as [(m & c & d & ->) | [Hin | (cls & msg & ->)]].
      * split_and!; discriminate.
      * unfold normalizer_exceptions in Hin.
        split_and!; intros Hk; rewrite Hk in Hin;
          repeat (apply elem_of_cons in Hin as [Hin | Hin]; [discriminate Hin |]);
          by apply elem_of_nil in Hin.
      * split_and!; discriminate.
    + rewrite Hfin. destruct e0; simpl in He; try discriminate He;
        injection He as <-; split_and!; try discriminate; reflexivity.
  - destruct response as [lines fin]. cbn [aiter_end aiter_lines].
    intros e -> Hr Hclosed Hproto.
    destruct (read_lines scan lines EndOfStream) as [events r] eqn:Hg.
    simpl in Hr. subst r.
    rewrite (parse_sse_stream_end scan _ _ (StreamFault e) Hg). simpl.
    destruct e; try reflexivity; [by destruct Hclosed | by destruct Hproto].
Qed.

(** A read timeout of the transport after one record: the caller sees it as
    it is. *)
Lemma reader_rewrites_its_exceptions_witness :
  let e := ExOther "ReadTimeout" "timed out" in
  let response := mkResponse ["data: {}"] (StreamFault e) in
  aiter_end response = StreamFault e
  ∧ raised (read_lines scan_values (aiter_lines response) EndOfStream) = None
  ∧ class_of e ≠ StreamClosedT
  ∧ class_of e ≠ RemoteProtocolErrorT
  ∧ raised (parse_sse_stream scan_values response) = Some e.
Proof.
  intros e response.
  assert (Hfin : aiter_end response = StreamFault e) by reflexivity.
  assert (Hr : raised (read_lines scan_values (aiter_lines response) EndOfStream)
               = None) by reflexivity.
  assert (Hclosed : class_of e ≠ StreamClosedT) by discriminate.
  assert (Hproto : class_of e ≠ RemoteProtocolErrorT) by discriminate.
  split_and!; [exact Hfin | exact Hr | exact Hclosed | exact Hproto |].
  exact (proj2 (reader_rewrites_its_exceptions scan_values response)
           e Hfin Hr Hclosed Hproto).
Defined.

(** X12.  Resuming on a second stream without [reset] continues the first:
    when the first stream ends without an exception, consuming it and then
    a second stream with the same accumulator leaves the accumulator as
    consuming one stream made of the lines of both would, and the events
    yielded are those of the first followed by those of the second. *)
Theorem consumed_streams_compose (scan : string → decoded)
    (self : SSEStreamParser.t) (lines1 lines2 : list string)
    (fin1 fin2 : stream_end) (yield1 yield2 yield_events : bool) :
  raised (parse_sse_stream scan (mkResponse lines1 fin1)) = None →
  let first := SSEStreamParser.consume_stream scan self
                 (mkResponse lines1 fin1) yield1 in
  let second := SSEStreamParser.consume_stream scan first.1
                  (mkResponse lines2 fin2) yield2 in
  let both := SSEStreamParser.consume_stream scan self
                (mkResponse (lines1 ++ lines2) fin2) yield_events in
  second.1 = both.1
  ∧ raised second.2 = raised both.2
  ∧ yielded (parse_sse_stream scan (mkResponse (lines1 ++ lines2) fin2))
    = yielded (parse_sse_stream scan (mkResponse lines1 fin1))
      ++ yielded (parse_sse_stream scan (mkResponse lines2 fin2)).
Proof.
  intros Hdone. apply read_lines_completed in Hdone.
  unfold SSEStreamParser.consume_stream, parse_sse_stream. simpl.
  rewrite read_lines_app, Hdone. simpl.
  rewrite process_events_app. split_and!; reflexivity.
Qed.

(** A stream of one record, closed by the transport, then a second one. *)
Lemma consumed_streams_compose_witness :
  raised (parse_sse_stream scan_values
            (mkResponse ["data: {}"; ""] (StreamFault ExStreamClosed))) = None
  ∧ (SSEStreamParser.consume_stream scan_values
       (SSEStreamParser.consume_stream scan_values SSEStreamParser.init
          (mkResponse ["data: {}"; ""] (StreamFault ExStreamClosed)) true).1
       (mkResponse ["data: {}"] EndOfStream) false).1
    = (SSEStreamParser.consume_stream scan_values SSEStreamParser.init
         (mkResponse (["data: {}"; ""] ++ ["data: {}"]) EndOfStream) true).1.
Proof.
  assert (H : raised (parse_sse_stream scan_values
                        (mkResponse ["data: {}"; ""] (StreamFault ExStreamClosed)))
              = None) by reflexivity.
  split; [exact H |].
  exact (proj1 (consumed_streams_compose scan_values SSEStreamParser.init
                  ["data: {}"; ""] ["data: {}"] (StreamFault ExStreamClosed)
                  EndOfStream true false true H)).
Defined.

(** ** The accumulator: termination and the tool-call map *)

Lemma finish_reasons_snoc events ev :
  finish_reasons (events ++ [ev])
  = finish_reasons events
    ++ match ev with EFinish e => [finish_reason e] | _ => [] end.
Proof. unfold finish_reasons. rewrite omap_app. by destruct ev. Qed.

(** X13.  The finish reason is that of the last [Finish] event processed, a
    later one replacing an earlier one, and [finished] is set exactly when
    it was set before or some [Finish] event has been processed. *)
Theorem finish_reason_is_the_last (self : SSEStreamParser.t)
    (events : list SSEEvent) :
  SSEStreamParser.finish_reason (SSEStreamParser.process_events self events)
  = match last (finish_reasons events) with
    | Some reason => Some reason
    | None => SSEStreamParser.finish_reason self
    end
  ∧ SSEStreamParser.finished (SSEStreamParser.process_events self events)
    = SSEStreamParser.finished self || bool_decide (finish_reasons events ≠ []).
Proof.
  unfold SSEStreamParser.finish_reason, SSEStreamParser.finished.
  induction events as [|ev events [IHr IHf]] using rev_ind.
  - simpl. by rewrite orb_false_r.
  - rewrite process_events_snoc, finish_reasons_snoc.
    destruct ev as [e| |e|e|e|e|e|e|e]; simpl; rewrite ?app_nil_r;
      try (split; assumption).
    rewrite last_snoc.
    rewrite (bool_decide_eq_true_2 (finish_reasons events ++ [finish_reason e] ≠ []))
      by (by destruct (finish_reasons events)).
    rewrite orb_true_r. by destruct (fe_usage e).
Qed.

(** X14.  The tool-call map only grows: after a sequence its keys are the
    keys it had and the ids of the [ToolCall] events of the sequence, and it
    has at most one entry more per [ToolCall] event. *)
Theorem tool_call_map_keys (self : SSEStreamParser.t) (events : list SSEEvent) :
  dom (SSEStreamParser.tool_calls (SSEStreamParser.process_events self events))
  = dom (SSEStreamParser.tool_calls self) ∪ list_to_set (tool_call_ids events)
  ∧ (size (SSEStreamParser.tool_calls (SSEStreamParser.process_events self events))
     ≤ size (SSEStreamParser.tool_calls self) + length (tool_call_ids events))%nat.
Proof.
  unfold SSEStreamParser.tool_calls, tool_call_ids, tool_call_events.
  revert self. induction events as [|ev events IH]; intros self.
  - simpl. split; [by rewrite union_empty_r_L | lia].
  - rewrite process_events_cons.
    destruct (IH (SSEStreamParser.process_event self ev)) as [IHd IHs].
    rewrite IHd, omap_cons. clear IH IHd.
    destruct ev as [e| |e|e|e|e|e|e|e]; simpl in *;
      try (split; [reflexivity | exact IHs]).
    + rewrite dom_insert_L. split.
      * by rewrite (union_comm_L {[tool_call_id e]}), <- union_assoc_L.
      * etrans; [exact IHs |]. rewrite map_size_insert, !length_fmap.
        destruct (SSEStreamParser._tool_calls self !! tool_call_id e);
          unfold id; lia.
    + destruct (fe_usage e); simpl in *; split; try reflexivity; exact IHs.
Qed.

Lemma latest_tool_call_silent id events :
  silent_about id events → latest_tool_call id events = None.
Proof.
  unfold silent_about. induction events as [|ev events IH] using rev_ind;
    [reflexivity |].
  intros [Hevs Hev%Forall_inv]%Forall_app.
  rewrite latest_tool_call_snoc. destruct ev; try by apply IH.
  rewrite decide_False by (by apply Hev). by apply IH.
Qed.

(** X15.  Events that are not [ToolCall] events of an id leave that id
    alone: its entry in the map and its pending status are what they were.
    A [ToolOutputError] is such an event, whatever id it names: after
    started, input-available and a tool-output-error, the call is still
    pending. *)
Theorem other_events_leave_a_call (self : SSEStreamParser.t)
    (events : list SSEEvent) (id : string) :
  silent_about id events →
  SSEStreamParser.tool_calls (SSEStreamParser.process_events self events) !! id
  = SSEStreamParser.tool_calls self !! id
  ∧ is_pending
      (SSEStreamParser.tool_calls (SSEStreamParser.process_events self events)) id
    = is_pending (SSEStreamParser.tool_calls self) id
  ∧ (∀ err, silent_about id (events ++ [EToolOutputError err])).
Proof.
  intros Hs.
  assert (Hl : SSEStreamParser.tool_calls
                 (SSEStreamParser.process_events self events) !! id
               = SSEStreamParser.tool_calls self !! id).
  { unfold SSEStreamParser.tool_calls.
    by rewrite tool_calls_process_events, (latest_tool_call_silent _ _ Hs). }
  split_and!; [exact Hl | unfold is_pending; by rewrite Hl |].
  intros err. apply Forall_app. split; [exact Hs |].
  apply Forall_singleton. intros e [=].
Qed.

(** The call t1 fails after its input was available: it stays pending. *)
Lemma other_events_leave_a_call_witness :
  let self := SSEStreamParser.process_events SSEStreamParser.init
                [EToolCall (tool_started "t1" "create_bucket");
                 EToolCall (tool_input_available "t1" "create_bucket")] in
  let failure := [EToolOutputError (mkToolOutputErrorEvent "t1" "denied")] in
  silent_about "t1" failure
  ∧ is_pending
      (SSEStreamParser.tool_calls (SSEStreamParser.process_events self failure))
      "t1" = true.
Proof.
  intros self failure.
  assert (Hs : silent_about "t1" failure).
  { apply Forall_singleton. intros e H. discriminate H. }
  split; [exact Hs |].
  rewrite (proj1 (proj2 (other_events_leave_a_call self failure "t1" Hs))).
  reflexivity.
Defined.

(** ** The tracker of the example *)

Lemma first_occurrences_seen seen seen' ids :
  (∀ i, i ∈ seen ↔ i ∈ seen') →
  first_occurrences seen ids = first_occurrences seen' ids.
Proof.
  revert seen seen'. induction ids as [|i ids IH]; intros seen seen' Hs;
    [reflexivity |].
  simpl. destruct (decide (i ∈ seen)) as [Hi | Hi].
  - rewrite decide_True by (by apply Hs). by apply IH.
  - rewrite decide_False by (by rewrite <- Hs). f_equal. apply IH.
    intros j. rewrite !elem_of_cons. by rewrite Hs.
Qed.

(** The keys of the tracker's dict: those it had, then the new ids in the
    order of their first [ToolCall] event. *)
Lemma upsert_calls_keys events (ts : list (string * ToolCallEvent)) :
  (upsert_calls events ts).*1
  = ts.*1 ++ first_occurrences ts.*1 (tool_call_ids events).
Proof.
  unfold upsert_calls, tool_call_ids, tool_call_events.
  revert ts. induction events as [|ev events IH]; intros ts.
  - simpl. by rewrite app_nil_r.
  - rewrite omap_cons. cbn [fold_left]. rewrite IH. clear IH.
    destruct ev as [e| |e|e|e|e|e|e|e]; try reflexivity.
    rewrite odict_set_keys, fmap_cons. cbn [first_occurrences].
    destruct (decide (tool_call_id e ∈ ts.*1)) as [Hin | Hin]; [reflexivity |].
    rewrite <- app_assoc. cbn [app]. do 2 f_equal.
    apply first_occurrences_seen. intros j.
    rewrite elem_of_app, !elem_of_cons, elem_of_nil. tauto.
Qed.

(** The ids of the pending tools, as a selection from the keys. *)
Lemma pending_tools_ids (ts : list (string * ToolCallEvent)) :
  odict_wf ts →
  tool_call_id <$> pending_tools ts
  = filter (λ id, (match odict_get ts id with
                   | Some e => String.eqb (state e) "input-available"
                   | None => false
                   end) = true) ts.*1.
Proof.
  intros [Hnd Hid]. unfold pending_tools.
  assert (Hsub : ∀ kv, kv ∈ ts → odict_get ts kv.1 = Some kv.2).
  { intros [k v] Hkv. by apply (odict_get_elem_of _ _ _ Hnd). }
  revert Hsub. generalize (odict_get ts) as get. clear Hnd.
  induction Hid as [|[k v] rest Hk _ IH]; intros get Hsub; [reflexivity |].
  simpl in Hk. subst k. rewrite fmap_cons, !filter_cons. cbn [fst snd].
  pose proof (Hsub (tool_call_id v, v) ltac:(left)) as Hv. simpl in Hv.
  rewrite Hv.
  specialize (IH get (λ kv Hkv, Hsub kv (list_elem_of_further _ _ _ Hkv))).
  destruct (String.eqb (state v) "input-available").
  - rewrite !decide_True by reflexivity. by rewrite !fmap_cons, <- IH.
  - rewrite !decide_False by discriminate. exact IH.
Qed.

(** X16.  When [stream_and_collect] returns, the generator did not raise,
    [all_events] is every event it yielded, in order, and [text_parts] is
    the buffer the accumulator builds from the same events, so that the
    joined text parts are the accumulator's [text]. *)
Theorem tracker_text_is_accumulator_text (g : generator SSEEvent)
    (texts : list string) (all : list SSEEvent)
    (ts : list (string * ToolCallEvent)) (pending : list ToolCallEvent) :
  stream_and_collect g = Ok (texts, all, ts, pending) →
  raised g = None
  ∧ all = yielded g
  ∧ texts = SSEStreamParser._accumulated_text
              (SSEStreamParser.process_events SSEStreamParser.init (yielded g))
  ∧ str_join "" texts
    = SSEStreamParser.text
        (SSEStreamParser.process_events SSEStreamParser.init (yielded g)).
Proof.
  unfold stream_and_collect. unfold_result. intros H.
  destruct (collect_events _ (yielded g)) as [c|] eqn:Hc; [| discriminate H].
  destruct (raised g); [discriminate H |]. injection H as <- <- <- <-.
  apply collect_events_Ok in Hc as (Ht & Ha & _). simpl in Ht, Ha.
  unfold SSEStreamParser.text. rewrite accumulated_text_process_events.
  rewrite Ht, Ha. by split_and!.
Qed.

(** Two fragments around a tool call. *)
Lemma tracker_text_is_accumulator_text_witness :
  let events := [EText (mkTextEvent "Hel" None);
                 EToolCall (tool_started "t1" "create_bucket");
                 EText (mkTextEvent "lo" None)] in
  stream_and_collect (mkGenerator events None)
  = Ok (["Hel"; "lo"], events, [("t1", tool_started "t1" "create_bucket")], [])
  ∧ str_join "" ["Hel"; "lo"]
    = SSEStreamParser.text
        (SSEStreamParser.process_events SSEStreamParser.init events).
Proof.
  intros events.
  assert (H : stream_and_collect (mkGenerator events None)
              = Ok (["Hel"; "lo"], events,
                    [("t1", tool_started "t1" "create_bucket")], []))
    by reflexivity.
  split; [exact H |].
  exact (proj2 (proj2 (proj2
           (tracker_text_is_accumulator_text _ _ _ _ _ H)))).
Defined.

(** X17.  The tracker's dict lists the tool-call ids in the order of their
    first [ToolCall] event, whatever came later for the same id, and the
    pending tools are, in that same order, the calls that the accumulator's
    map holds in phase "input-available".  So the last pending tool is the
    pending call that was first announced last, not the one whose input
    arrived last. *)
Theorem tracker_order_is_first_announcement (g : generator SSEEvent)
    (texts : list string) (all : list SSEEvent)
    (ts : list (string * ToolCallEvent)) (pending : list ToolCallEvent) :
  stream_and_collect g = Ok (texts, all, ts, pending) →
  ts.*1 = first_occurrences [] (tool_call_ids (yielded g))
  ∧ tool_call_id <$> pending
    = filter (λ id, is_pending
                      (SSEStreamParser.tool_calls
                         (SSEStreamParser.process_events SSEStreamParser.init
                            (yielded g))) id = true)
             (first_occurrences [] (tool_call_ids (yielded g))).
Proof.
  unfold stream_and_collect. unfold_result. intros H.
  destruct (collect_events _ (yielded g)) as [c|] eqn:Hc; [| discriminate H].
  destruct (raised g); [discriminate H |]. injection H as <- <- <- <-.
  apply collect_events_Ok in Hc as (_ & _ & Hts). simpl in Hts.
  assert (Hwf : odict_wf (tool_states c)).
  { rewrite Hts. apply upsert_calls_wf. split; [apply NoDup_nil_2 | constructor]. }
  assert (Hkeys : (tool_states c).*1
                  = first_occurrences [] (tool_call_ids (yielded g))).
  { by rewrite Hts, upsert_calls_keys. }
  split; [exact Hkeys |].
  rewrite (pending_tools_ids _ Hwf), Hkeys.
  apply list_filter_iff. intros id. unfold is_pending, SSEStreamParser.tool_calls.
  rewrite tool_calls_process_events, Hts, upsert_calls_get. simpl.
  rewrite lookup_empty. by destruct (latest_tool_call id (yielded g)).
Qed.

(** The input of t1 arrives after that of t2: t2 is still the last pending
    tool, because t1 was announced first. *)
Lemma tracker_order_is_first_announcement_witness :
  let events := [EToolCall (tool_started "t1" "create_bucket");
                 EToolCall (tool_started "t2" "delete_bucket");
                 EToolCall (tool_input_available "t2" "delete_bucket");
                 EToolCall (tool_input_available "t1" "create_bucket")] in
  stream_and_collect (mkGenerator events None)
  = Ok ([], events,
        [("t1", tool_input_available "t1" "create_bucket");
         ("t2", tool_input_available "t2" "delete_bucket")],
        [tool_input_available "t1" "create_bucket";
         tool_input_available "t2" "delete_bucket"])
  ∧ ["t1"; "t2"] = first_occurrences [] (tool_call_ids events).
Proof.
  intros events.
  assert (H : stream_and_collect (mkGenerator events None)
              = Ok ([], events,
                    [("t1", tool_input_available "t1" "create_bucket");
                     ("t2", tool_input_available "t2" "delete_bucket")],
                    [tool_input_available "t1" "create_bucket";
                     tool_input_available "t2" "delete_bucket"]))
    by reflexivity.
  split; [exact H |].
  exact (proj1 (tracker_order_is_first_announcement _ _ _ _ _ H)).
Defined.

Section TrackerOverReader.
Variable scan : string → decoded.

Lemma read_line_Yield line ev : read_line scan line = Yield ev → normalized ev.
Proof.
  unfold read_line, json_loads. unfold_result. intros H.
  repeat match type of H with
         | (if ?c then _ else _) = _ => destruct c; try discriminate H
         end.
  destruct (scan _) as [data|msg pos|cls msg]; [| discriminate H ..].
  destruct (parse_sse_event data) as [ev'|] eqn:Hp; [| discriminate H].
  injection H as <-. by exists data.
Qed.

Lemma read_lines_normalized lines fin :
  Forall normalized (yielded (read_lines scan lines fin)).
Proof.
  induction lines as [|line lines IH]; simpl.
  - destruct fin; constructor.
  - destruct (read_line scan line) as [|ev|e] eqn:Hl; [exact IH | | constructor].
    simpl. constructor; [by apply read_line_Yield in Hl | exact IH].
Qed.

(** X18.  Fed by the reader, the loop of [stream_and_collect] never raises
    by itself: the call returns exactly when the reader ends without an
    exception, and otherwise raises the reader's exception, after all the
    events that preceded it were collected. *)
Theorem tracker_fails_only_with_the_reader (response : Response) :
  match raised (parse_sse_stream scan response) with
  | Some e => stream_and_collect (parse_sse_stream scan response) = Raise e
  | None =>
      ∃ texts ts pending,
        stream_and_collect (parse_sse_stream scan response)
        = Ok (texts, yielded (parse_sse_stream scan response), ts, pending)
  end.
Proof.
  unfold stream_and_collect. unfold_result.
  assert (Hn : Forall normalized (yielded (parse_sse_stream scan response)))
    by apply read_lines_normalized.
  destruct (collect_events_total _ (mkCollected [] [] []) Hn) as [c Hc].
  rewrite Hc. destruct (raised (parse_sse_stream scan response));
    [reflexivity |].
  apply collect_events_Ok in Hc as (_ & -> & _). simpl. eauto.
Qed.

End TrackerOverReader.

(** ** The continuation of a pending tool call *)

(** Where the parser of a [ToolCall] event takes the approval from. *)
Lemma tool_call_approval_parsed data e :
  parse_sse_event data = Ok (EToolCall e) →
  ∃ d type_, data = JDict d ∧ dict_get d "type" (JStr "") = JStr type_
    ∧ (type_ ∈ ["tool-call"; "tool-input-available"]
       ∧ _parse_approval (JDict d) = Ok (approval e)
       ∨ type_ ∈ ["tool-input-start"; "tool-output-available"]
         ∧ approval e = None).
Proof.
  intros H. apply parse_sse_event_ok in H as (d & s & -> & Ht & H).
  exists d, s. split_and!; [reflexivity | exact Ht |].
  destruct (EVENT_PARSERS !! s) eqn:Hs; [| discriminate H].
  pose proof (parser_kind _ _ _ _ Hs H) as Hk.
  table_cases Hs; try (vm_compute in Hk; discriminate Hk); clear Hk.
  - unfold _parse_tool_call_event in H. unfold_result. simpl in H.
    destruct (_parse_approval (JDict d)) as [r|] eqn:Ha; [| discriminate H].
    apply new_ToolCallEvent_approval in H as ->. left.
    split; [by repeat constructor | reflexivity].
  - unfold _parse_tool_input_start_event in H. unfold_result. simpl in H.
    apply new_ToolCallEvent_approval in H as ->. right.
    split; [by repeat constructor | reflexivity].
  - unfold _parse_tool_input_available_event in H. unfold_result. simpl in H.
    destruct (_parse_approval (JDict d)) as [r|] eqn:Ha; [| discriminate H].
    apply new_ToolCallEvent_approval in H as ->. left.
    split; [by repeat constructor | reflexivity].
  - unfold _parse_tool_output_available_event in H. unfold_result. simpl in H.
    apply new_ToolCallEvent_approval in H as ->. right.
    split; [by repeat constructor | reflexivity].
Qed.

Lemma truthy_str s : truthy (JStr s) = true ↔ s ≠ "".
Proof.
  simpl. destruct (String.eqb_spec s ""); simpl; split; congruence.
Qed.

Lemma tool_name_or_unknown_nonempty pending : tool_name_or_unknown pending ≠ "".
Proof.
  unfold tool_name_or_unknown. destruct (tool_name pending) as [name|]; [| done].
  destruct (truthy (JStr name)) eqn:Hn; [by apply truthy_str | done].
Qed.

(** X19.  The example continues the last pending tool, and for an event that
    came from the normalizer the flow is decided by the wire record: the
    ticket flow ([reject_tool] / [approve_tool]) is taken exactly when the
    record is a "tool-call" or "tool-input-available" record whose "approval"
    mapping has a non-empty "id", and then that id is passed on; in every
    other case, an attached approval with the empty id included, the legacy
    flow ([deny_tool] / [confirm_tool]) is taken with the event's tool-call
    id and a tool name that is never empty. *)
Theorem approval_flow_follows_the_wire_id (data : json) (e : ToolCallEvent)
    (pending_tools : list ToolCallEvent) :
  parse_sse_event data = Ok (EToolCall e) →
  last pending_tools = Some e →
  ∃ d type_, data = JDict d ∧ dict_get d "type" (JStr "") = JStr type_ ∧
    ((∃ ad i, type_ ∈ ["tool-call"; "tool-input-available"]
              ∧ d !! "approval" = Some (JDict ad)
              ∧ ad !! "id" = Some (JStr i) ∧ i ≠ ""
              ∧ deny_pending pending_tools
                = Some (reject_tool i (Some "Testing rejection - do not modify"))
              ∧ approve_pending pending_tools
                = Some (approve_tool i (Some "Approved for testing")))
     ∨ (∃ name, name ≠ ""
                ∧ deny_pending pending_tools
                  = Some (deny_tool (tool_call_id e) name)
                ∧ approve_pending pending_tools
                  = Some (confirm_tool (tool_call_id e) name)
                ∧ (type_ ∈ ["tool-input-start"; "tool-output-available"]
                   ∨ ∀ ad, d !! "approval" = Some (JDict ad) →
                           ad !! "id" = None ∨ ad !! "id" = Some (JStr "")))).
Proof.
  intros H Hlast. unfold deny_pending, approve_pending. rewrite Hlast.
  destruct (tool_call_approval_parsed _ _ H) as (d & s & -> & Ht & Hcase).
  exists d, s. split_and!; [reflexivity | exact Ht |].
  unfold has_v6_approval, approval_id_of.
  destruct Hcase as [[Hs Ha] | [Hs Ha]].
  - apply parse_approval_Ok in Ha. destruct (approval e) as [a|].
    + destruct Ha as (ad & Had & Hid & _).
      destruct (truthy (JStr (ta_id a))) eqn:Hi.
      * left. exists ad, (ta_id a). apply truthy_str in Hi. by split_and!.
      * right. exists (tool_name_or_unknown e).
        split_and!; [apply tool_name_or_unknown_nonempty | done | done |].
        right. intros ad' Had'. right. rewrite Had in Had'.
        injection Had' as <-. rewrite Hid. do 2 f_equal.
        destruct (String.eqb_spec (ta_id a) "") as [-> | ?]; [done |].
        simpl in Hi. by destruct (String.eqb_spec (ta_id a) "").
    + right. exists (tool_name_or_unknown e).
      split_and!; [apply tool_name_or_unknown_nonempty | done | done |].
      right. intros ad Had. left. by apply Ha.
  - rewrite Ha. right. exists (tool_name_or_unknown e).
    split_and!; [apply tool_name_or_unknown_nonempty | done | done |]. by left.
Qed.

(** The record with the empty approval id: the approval is attached, and the
    legacy flow is taken. *)
Lemma approval_flow_follows_the_wire_id_witness :
  let e := mkToolCallEvent "t1" None "input-available" None None
             (Some (mkToolApproval "" None None)) in
  parse_sse_event record_empty_approval_id = Ok (EToolCall e)
  ∧ last [e] = Some e
  ∧ deny_pending [e] = Some (deny_tool "t1" "unknown")
  ∧ ∃ d type_, record_empty_approval_id = JDict d
      ∧ dict_get d "type" (JStr "") = JStr type_.
Proof.
  intros e.
  assert (H : parse_sse_event record_empty_approval_id = Ok (EToolCall e))
    by reflexivity.
  assert (Hl : last [e] = Some e) by reflexivity.
  split_and!; [exact H | exact Hl | reflexivity |].
  destruct (approval_flow_follows_the_wire_id _ _ _ H Hl)
    as (d & type_ & Hd & Ht & _).
  by exists d, type_.
Defined.

(** ** The accumulator: order of delivery *)

Lemma process_event_commute (self : SSEStreamParser.t) (ev1 ev2 : SSEEvent) :
  interferes ev1 ev2 = false →
  SSEStreamParser.process_event (SSEStreamParser.process_event self ev1) ev2
  = SSEStreamParser.process_event (SSEStreamParser.process_event self ev2) ev1.
Proof.
  destruct self as [acc calls fin reason pt ct].
  destruct ev1 as [e1| |e1|e1|e1|e1|e1|e1|e1], ev2 as [e2| |e2|e2|e2|e2|e2|e2|e2];
    simpl; intros H; try discriminate H; try reflexivity;
    repeat match goal with
           | |- context [fe_usage ?e] => destruct (fe_usage e); simpl
           end;
    try reflexivity;
    f_equal; lia.
Qed.

(** The same for the dict with its order: the insertion-ordered dict that
    the assignments [d[event.tool_call_id] = event] build. *)
Lemma upsert_calls_commute (ev : SSEEvent) (events : list SSEEvent)
    (ts : list (string * ToolCallEvent)) :
  Forall (λ ev', interferes ev ev' = false) events →
  upsert_calls (ev :: events) ts = upsert_calls (events ++ [ev]) ts.
Proof.
  unfold upsert_calls. rewrite fold_left_app. cbn [fold_left].
  intros H. revert ts. induction H as [|ev' events Hev _ IH]; intros ts;
    [reflexivity |].
  cbn [fold_left]. rewrite <- IH. f_equal.
  destruct ev, ev'; try reflexivity; discriminate Hev.
Qed.

(** X20.  The order of delivery matters only within a kind: an event can be
    moved past any run of events none of which is a text when it is a text,
    a [ToolCall] event when it is a [ToolCall] event, or a [Finish] event
    when it is a [Finish] event, and the accumulator ends in the same state;
    its dict, taken with the order of its keys, is the same as well.  Usage,
    in particular, may arrive at any point. *)
Theorem independent_events_commute (self : SSEStreamParser.t) (ev : SSEEvent)
    (events : list SSEEvent) :
  Forall (λ ev', interferes ev ev' = false) events →
  SSEStreamParser.process_events self (ev :: events)
  = SSEStreamParser.process_events self (events ++ [ev])
  ∧ (∀ ts, upsert_calls (ev :: events) ts = upsert_calls (events ++ [ev]) ts).
Proof.
  intros H. split; [| intros ts; by apply upsert_calls_commute].
  revert self.
  induction H as [|ev' events Hev _ IH]; intros self; [reflexivity |].
  rewrite process_events_cons, process_events_cons.
  rewrite (process_event_commute _ _ _ Hev).
  rewrite <- process_events_cons, IH.
  by rewrite <- app_comm_cons, (process_events_cons _ ev').
Qed.

(** A usage record delivered before or after a text and a tool call. *)
Lemma independent_events_commute_witness :
  let usage := EUsage (mkUsageEvent (mkUsageInfo 7 5)) in
  let events := [EText (mkTextEvent "Hello" None);
                 EToolCall (tool_started "t1" "create_bucket")] in
  Forall (λ ev', interferes usage ev' = false) events
  ∧ SSEStreamParser.process_events SSEStreamParser.init (usage :: events)
    = SSEStreamParser.process_events SSEStreamParser.init (events ++ [usage]).
Proof.
  intros usage events.
  assert (H : Forall (λ ev', interferes usage ev' = false) events)
    by (repeat constructor).
  split; [exact H |].
  exact (proj1 (independent_events_commute SSEStreamParser.init usage events H)).
Defined.
